(** * Image indexing and search service ([app.py]): model and properties

    The development follows [app.py] function by function.

    - Python [str] values read from files are sequences of Unicode code
      points ([text]); short literals and formatted messages are [string]s.
    - [pathlib.Path] values are lists of path components; where the code
      stores [str(path)] the path itself is kept.
    - The global [indexing_status] dictionary, the Qdrant collection behind
      [client] and the wall clock form the mutable [World]; code that
      mutates it is written in a state-and-exception monad in which the
      effects performed before a [raise] persist, as in Python.
    - The file system, the CLIP model and the nearest-neighbour engine are
      read-only oracles collected in [Env].  A [client.upsert] call
      either raises, and is then taken to have stored nothing, or inserts
      or overwrites by id; which calls raise is an oracle too.
    - Python [float]s are an interface ([PyFloat]); every general result
      holds for any implementation of it.  Exact rationals give one
      implementation on which the code can be run.
    - [print] calls are not modelled. *)

From Stdlib Require Import ZArith QArith Ascii.
From stdpp Require Import base option list gmap sets strings pretty.


(** ** Text *)

Module Text.

Definition text := list N.

Definition of_string (s : string) : text :=
  Ascii.N_of_ascii <$> String.list_ascii_of_string s.

(** Code points for which [str.isspace] holds; [str.strip()] removes
    exactly these at both ends. *)
Definition isspace (c : N) : bool :=
  ((9 <=? c) && (c <=? 13) || (28 <=? c) && (c <=? 32)
   || (c =? 133) || (c =? 160) || (c =? 5760)
   || (8192 <=? c) && (c <=? 8202)
   || (c =? 8232) || (c =? 8233) || (c =? 8239) || (c =? 8287)
   || (c =? 12288))%N.

Fixpoint lstrip (s : text) : text :=
  match s with
  | c :: s' => if isspace c then lstrip s' else s
  | [] => []
  end.

Definition rstrip (s : text) : text := reverse (lstrip (reverse s)).

Definition strip (s : text) : text := rstrip (lstrip s).

Definition is_empty (s : text) : bool :=
  match s with [] => true | _ => false end.

End Text.

Import Text.

(** ** Paths *)

Module Path.

(** A path is the list of its components, outermost first. *)
Definition t := list string.

Definition name (p : t) : string := default "" (last p).

Definition parent (p : t) : t := removelast p.

(** [rfind_dot s] is [s.rfind('.')]: the index of the last dot. *)
Fixpoint rfind_dot (s : list ascii) : option nat :=
  match s with
  | [] => None
  | c :: s' =>
      match rfind_dot s' with
      | Some i => Some (S i)
      | None => if Ascii.eqb c "."%char then Some 0 else None
      end
  end.

(** [PurePath.stem]: the final component without its suffix.  A leading
    or a trailing dot does not start a suffix. *)
Definition stem (nm : string) : string :=
  let cs := String.list_ascii_of_string nm in
  match rfind_dot cs with
  | Some i =>
      if ((0 <? i) && (i <? length cs - 1))%nat
      then String.string_of_list_ascii (take i cs)
      else nm
  | None => nm
  end.

(** [PurePath.with_suffix]: [None] stands for the [ValueError] raised on
    a path with an empty name. *)
Definition with_suffix (p : t) (suffix : string) : option t :=
  if decide (name p = "") then None
  else Some (parent p ++ [stem (name p) +:+ suffix]).

End Path.

(** ** Exceptions and the state monad *)

Inductive exn : Set :=
| ZeroDivisionError | OverflowError | TypeError | ValueError | KeyError
| ExternalError.

Inductive outcome (A : Type) : Type :=
| Ok (a : A)
| Raise (e : exn).
Arguments Ok {A} a.
Arguments Raise {A} e.

Definition M (S A : Type) : Type := S -> outcome A * S.

Definition ret {S A} (a : A) : M S A := fun s => (Ok a, s).

Definition bind {S A B} (m : M S A) (k : A -> M S B) : M S B :=
  fun s => match m s with
           | (Ok a, s') => k a s'
           | (Raise e, s') => (Raise e, s')
           end.

Definition raise {S A} (e : exn) : M S A := fun s => (Raise e, s).

Definition gets {S A} (f : S -> A) : M S A := fun s => (Ok (f s), s).

Definition modify {S} (f : S -> S) : M S unit := fun s => (Ok tt, f s).

(** [try: m except Exception: h] *)
Definition try_except {S A} (m : M S A) (h : exn -> M S A) : M S A :=
  fun s => match m s with
           | (Ok a, s') => (Ok a, s')
           | (Raise e, s') => h e s'
           end.

Definition lift_option {S A} (e : exn) (o : option A) : M S A :=
  match o with Some a => ret a | None => raise e end.

Declare Scope py_scope.
Delimit Scope py_scope with py.
Notation "'do' x <- m ; k" := (bind m (fun x => k))
  (at level 10, x name, m at level 100, k at level 200) : py_scope.
Open Scope py_scope.

(** ** Floats *)

Class PyFloat (F : Type) : Type := {
  of_Z : Z -> F;                 (* [float(n)] *)
  fsub : F -> F -> F;            (* [x - y] *)
  fdiv : F -> F -> option F;     (* [x / y]; [None]: ZeroDivisionError *)
  fmod : F -> F -> option F;     (* [x % y]; [None]: ZeroDivisionError *)
  flt : F -> F -> bool;          (* [x < y] *)
  to_int : F -> option Z         (* [int(x)]; [None]: not a finite value *)
}.

(** Exact rational arithmetic as an implementation of the interface. *)
Module QFloat.

Definition is_zero (y : Q) : bool := (Qnum y =? 0)%Z.

Definition div (x y : Q) : option Q :=
  if is_zero y then None else Some (Qred (x / y)).

Definition floor (x : Q) : Z := (Qnum x / Zpos (Qden x))%Z.

Definition mod_ (x y : Q) : option Q :=
  if is_zero y then None
  else Some (Qred (x - inject_Z (floor (x / y)) * y)).

Definition lt (x y : Q) : bool :=
  (Qnum x * Zpos (Qden y) <? Qnum y * Zpos (Qden x))%Z.

(** [int] truncates towards zero. *)
Definition trunc (x : Q) : option Z :=
  Some (Z.quot (Qnum x) (Zpos (Qden x))).

#[global] Instance Q_PyFloat : PyFloat Q := {
  of_Z := inject_Z;
  fsub := fun x y => Qred (x - y);
  fdiv := div;
  fmod := mod_;
  flt := lt;
  to_int := trunc
}.

End QFloat.

(** ** Data model *)

(** Values stored in a point's payload dictionary. *)
Inductive pyval : Type :=
| VStr (s : string)
| VText (t : text)
| VPath (p : Path.t).

Definition batch_size : nat := 100.

Section App.

Context {F : Type} `{PyFloat F}.

Record PointStruct : Type := {
  id : nat;
  vector : list F;
  payload : gmap string pyval
}.

Record ScoredPoint : Type := {
  score : F;
  sp_payload : gmap string pyval
}.

(** The [indexing_status] dictionary. *)
Record Status : Type := {
  is_indexing : bool;
  progress : nat;
  total : nat;
  message : string;
  start_time : option F;
  estimated_time : option string
}.

Definition initial_status : Status :=
  {| is_indexing := false; progress := 0; total := 0; message := "";
     start_time := None; estimated_time := None |}.

(** Mutable state shared by the request handlers and the indexing thread:
    the status dictionary, the contents of the [image_search] collection,
    the batches stored by the [client.upsert] calls that returned so far
    (oldest first), the number of [time.time()] calls and the number of
    [client.upsert] calls made so far. *)
Record World : Type := {
  indexing_status : Status;
  collection : gmap nat PointStruct;
  upsert_log : list (list PointStruct);
  clock_reads : nat;
  upsert_calls : nat
}.

(** Read-only surroundings. *)
Record Env : Type := {
  glob : string -> string -> list Path.t;   (* [Path(folder).glob(pat)] *)
  rglob : string -> string -> list Path.t;  (* [Path(folder).rglob(pat)] *)
  read_text : Path.t -> option text;  (* [open(p).read()]; [None]: raised *)
  path_exists : string -> bool;             (* [os.path.exists] *)
  absolute : Path.t -> Path.t;              (* [Path.absolute] *)
  clip_image : Path.t -> option (list F);
    (* open, preprocess, encode and normalise; [None]: raised *)
  clip_text : string -> option (list F);
    (* tokenise, encode and normalise; [None]: raised *)
  knn : gmap nat PointStruct -> list F -> Z -> option (list ScoredPoint);
    (* [client.search]; [None]: raised *)
  clock : nat -> F;                         (* the n-th [time.time()] *)
  upsert_raises : nat -> bool     (* the n-th [client.upsert] call raises *)
}.

Variable env : Env.

(** *** Field updates *)

Definition set_status (st : Status) (w : World) : World :=
  {| indexing_status := st; collection := collection w;
     upsert_log := upsert_log w; clock_reads := clock_reads w;
     upsert_calls := upsert_calls w |}.

Definition set_is_indexing (b : bool) (st : Status) : Status :=
  {| is_indexing := b; progress := progress st; total := total st;
     message := message st; start_time := start_time st;
     estimated_time := estimated_time st |}.

Definition set_progress (n : nat) (st : Status) : Status :=
  {| is_indexing := is_indexing st; progress := n; total := total st;
     message := message st; start_time := start_time st;
     estimated_time := estimated_time st |}.

Definition set_total (n : nat) (st : Status) : Status :=
  {| is_indexing := is_indexing st; progress := progress st; total := n;
     message := message st; start_time := start_time st;
     estimated_time := estimated_time st |}.

Definition set_message (m : string) (st : Status) : Status :=
  {| is_indexing := is_indexing st; progress := progress st;
     total := total st; message := m; start_time := start_time st;
     estimated_time := estimated_time st |}.

Definition set_start_time (t : option F) (st : Status) : Status :=
  {| is_indexing := is_indexing st; progress := progress st;
     total := total st; message := message st; start_time := t;
     estimated_time := estimated_time st |}.

Definition set_estimated_time (e : option string) (st : Status) : Status :=
  {| is_indexing := is_indexing st; progress := progress st;
     total := total st; message := message st;
     start_time := start_time st; estimated_time := e |}.

Definition update_status (f : Status -> Status) (w : World) : World :=
  set_status (f (indexing_status w)) w.

(** *** External calls *)

(** [time.time()] *)
Definition time_time : M World F :=
  fun w => (Ok (clock env (clock_reads w)),
            {| indexing_status := indexing_status w;
               collection := collection w;
               upsert_log := upsert_log w;
               clock_reads := S (clock_reads w);
               upsert_calls := upsert_calls w |}).

(** The effect of a [client.upsert] call that returns: insert or
    overwrite by id, in list order. *)
Definition store_points (pts : list PointStruct)
    (c : gmap nat PointStruct) : gmap nat PointStruct :=
  foldl (fun m p => <[id p := p]> m) c pts.

(** [client.upsert(collection_name="image_search", points=pts)] *)
Definition upsert (pts : list PointStruct) : M World unit :=
  fun w =>
    if upsert_raises env (upsert_calls w) then
      (Raise ExternalError,
       {| indexing_status := indexing_status w;
          collection := collection w;
          upsert_log := upsert_log w;
          clock_reads := clock_reads w;
          upsert_calls := S (upsert_calls w) |})
    else
      (Ok tt,
       {| indexing_status := indexing_status w;
          collection := store_points pts (collection w);
          upsert_log := upsert_log w ++ [pts];
          clock_reads := clock_reads w;
          upsert_calls := S (upsert_calls w) |}).

(** *** [embed_image], [read_description] *)

Definition embed_image (image_path : Path.t) : option (list F) :=
  clip_image env image_path.

Definition no_description : text := of_string "No description".

Definition read_description (txt_path : Path.t) : text :=
  match read_text env txt_path with
  | Some raw =>
      let content := strip raw in
      if is_empty content then no_description else content
  | None => no_description
  end.

(** *** [estimate_time_remaining] *)

Definition estimate_time_remaining (progress total : Z)
    (start_time : option F) : M World string :=
  if (progress =? 0)%Z then ret "Calculating..."
  else
    do now <- time_time;
    do elapsed <- match start_time with
                  | Some t0 => ret (fsub now t0)
                  | None => raise TypeError
                  end;
    do rate <- lift_option ZeroDivisionError (fdiv (of_Z progress) elapsed);
    do remaining <- lift_option ZeroDivisionError
                      (fdiv (of_Z (total - progress)) rate);
    if flt remaining (of_Z 60) then
      do s <- lift_option OverflowError (to_int remaining);
      ret (pretty s +:+ "s remaining")
    else if flt remaining (of_Z 3600) then
      do q <- lift_option ZeroDivisionError (fdiv remaining (of_Z 60));
      do m <- lift_option OverflowError (to_int q);
      ret (pretty m +:+ "m remaining")
    else
      do q <- lift_option ZeroDivisionError (fdiv remaining (of_Z 3600));
      do h <- lift_option OverflowError (to_int q);
      do r <- lift_option ZeroDivisionError (fmod remaining (of_Z 3600));
      do q' <- lift_option ZeroDivisionError (fdiv r (of_Z 60));
      do m <- lift_option OverflowError (to_int q');
      ret (pretty h +:+ "h " +:+ pretty m +:+ "m remaining").

(** *** [index_images_background] *)

(** The thread's local variables next to the shared world. *)
Record Frame : Type := {
  world : World;
  points : list PointStruct;
  errors : nat
}.

Definition in_world {A} (m : M World A) : M Frame A :=
  fun fr => let '(r, w) := m (world fr) in
            (r, {| world := w; points := points fr; errors := errors fr |}).

Definition set_points (pts : list PointStruct) (fr : Frame) : Frame :=
  {| world := world fr; points := pts; errors := errors fr |}.

Definition incr_errors (fr : Frame) : Frame :=
  {| world := world fr; points := points fr; errors := S (errors fr) |}.

Definition status_update (f : Status -> Status) : M Frame unit :=
  in_world (modify (update_status f)).

Definition enumerate {A} (l : list A) : list (nat * A) :=
  zip (seq 0 (length l)) l.

Fixpoint for_each {S A} (body : A -> M S unit) (l : list A) : M S unit :=
  match l with
  | [] => ret tt
  | x :: l' => do _ <- body x; for_each body l'
  end.

(** Lines 106-116: six searches, then [list(set(...))].  The order in
    which a Python set is listed is not specified; here it is the order
    of [elements].  No general result below depends on it; the concrete
    runs show one listing. *)
Definition found_files (image_folder : string) : list Path.t :=
  glob env image_folder "*.jpg" ++
  glob env image_folder "*.jpeg" ++
  glob env image_folder "*.png" ++
  rglob env image_folder "*.jpg" ++
  rglob env image_folder "*.jpeg" ++
  rglob env image_folder "*.png".

(** The value of [image_files] after line 116. *)
Definition scan (image_folder : string) : list Path.t :=
  elements (list_to_set (found_files image_folder) : gset Path.t).

Definition make_point (idx : nat) (image_file : Path.t)
    (embedding : list F) (description : text) : PointStruct :=
  {| id := idx;
     vector := embedding;
     payload :=
       <["filename" := VStr (Path.name image_file)]>
       (<["path" := VPath (absolute env image_file)]>
       (<["description" := VText description]>
       (<["folder" := VPath (Path.parent image_file)]> ∅))) |}.

(** One iteration of the loop of lines 129-175; [n] is
    [len(image_files)]. *)
Definition loop_body (n : nat) (item : nat * Path.t) : M Frame unit :=
  let '(idx, image_file) := item in
  try_except
    (do txt_file <-
       lift_option ValueError (Path.with_suffix image_file ".txt");
     let description := read_description txt_file in
     match embed_image image_file with
     | None => modify incr_errors                 (* [continue] *)
     | Some embedding =>
         do pts <- gets points;
         do _ <- modify (set_points
                   (pts ++ [make_point idx image_file embedding
                              description]));
         do pts <- gets points;
         do _ <- (if (batch_size <=? length pts)%nat then
                    do _ <- in_world (upsert pts);
                    modify (set_points [])
                  else ret tt);
         do _ <- status_update (set_progress (idx + 1));
         do st <- gets (fun fr =>
                    start_time (indexing_status (world fr)));
         do eta <- in_world (estimate_time_remaining
                     (Z.of_nat (idx + 1)) (Z.of_nat n) st);
         do _ <- status_update (set_estimated_time (Some eta));
         status_update (set_message
           ("Processed " +:+ pretty (idx + 1) +:+ "/" +:+ pretty n
            +:+ " images"))
     end)
    (fun _ => modify incr_errors).

Definition index_images_job (image_folder : string) : M Frame unit :=
  let image_files := scan image_folder in
  let n := length image_files in
  do _ <- status_update (set_total n);
  do _ <- status_update (set_progress 0);
  do now <- in_world time_time;
  do _ <- status_update (set_start_time (Some now));
  do _ <- status_update (set_message
            ("Found " +:+ pretty n +:+ " images"));
  do _ <- for_each (loop_body n) (enumerate image_files);
  do pts <- gets points;
  do _ <- (match pts with
           | [] => ret tt
           | _ :: _ => in_world (upsert pts)
           end);
  do _ <- status_update (set_is_indexing false);
  do errs <- gets errors;
  let success_count := (Z.of_nat n - Z.of_nat errs)%Z in
  status_update (set_message
    ("✅ Completed! Indexed " +:+ pretty success_count +:+ " images ("
     +:+ pretty errs +:+ " errors)")).

(** The whole call: fresh locals, and the final frame with the result. *)
Definition index_images_background (image_folder : string) (w : World)
    : outcome unit * Frame :=
  index_images_job image_folder
    {| world := w; points := []; errors := 0 |}.

(** *** The loop, iteration by iteration

    Two definitions used to state what an iteration does: the point it
    appends, and the frame it leaves after appending one. *)

Definition record_of (item : nat * Path.t) : option PointStruct :=
  match Path.with_suffix item.2 ".txt" with
  | None => None
  | Some txt_file =>
      match embed_image item.2 with
      | None => None
      | Some embedding =>
          Some (make_point item.1 item.2 embedding
                  (read_description txt_file))
      end
  end.

Definition records (items : list (nat * Path.t)) : list PointStruct :=
  omap record_of items.

(** The rest of an iteration once the batch has been dealt with: [pts] is
    the batch kept, [errs] the error count. *)
Definition finish_record (n idx : nat) (pts : list PointStruct)
    (errs : nat) (w1 : World) : Frame :=
  let w2 := update_status (set_progress (idx + 1)) w1 in
  match estimate_time_remaining (Z.of_nat (idx + 1)) (Z.of_nat n)
          (start_time (indexing_status w2)) w2 with
  | (Ok eta, w3) =>
      {| world :=
           update_status
             (set_message
                ("Processed " +:+ pretty (idx + 1) +:+ "/" +:+ pretty n
                 +:+ " images"))
             (update_status (set_estimated_time (Some eta)) w3);
         points := pts;
         errors := errs |}
  | (Raise _, w3) =>
      {| world := w3; points := pts; errors := S errs |}
  end.

Definition after_record (n idx : nat) (pt : PointStruct) (fr : Frame)
    : Frame :=
  let pts := points fr ++ [pt] in
  if (batch_size <=? length pts)%nat then
    match upsert pts (world fr) with
    | (Ok _, w1) => finish_record n idx [] (errors fr) w1
    | (Raise _, w1) =>
        {| world := w1; points := pts; errors := S (errors fr) |}
    end
  else finish_record n idx pts (errors fr) (world fr).

(** The store answers every [upsert] call from the [k]-th on. *)
Definition answers_from (k : nat) : Prop :=
  forall j, k <= j -> upsert_raises env j = false.

Definition iteration (n : nat) (fr : Frame) (item : nat * Path.t) : Frame :=
  match record_of item with
  | None => incr_errors fr
  | Some pt => after_record n item.1 pt fr
  end.

(** The frame before the first iteration, and the outcome of the
    statements after the loop given the frame the loop leaves. *)
Definition begin_job (n : nat) (w : World) : Frame :=
  let w1 := update_status (set_progress 0) (update_status (set_total n) w) in
  let '(now, w2) := (clock env (clock_reads w1), snd (time_time w1)) in
  {| world :=
       update_status (set_message ("Found " +:+ pretty n +:+ " images"))
         (update_status (set_start_time (Some now)) w2);
     points := [];
     errors := 0 |}.

Definition finish_job (n : nat) (w1 : World) (fr : Frame) : Frame :=
  {| world :=
       update_status
         (set_message
            ("✅ Completed! Indexed " +:+
             pretty (Z.of_nat n - Z.of_nat (errors fr))%Z +:+ " images ("
             +:+ pretty (errors fr) +:+ " errors)"))
         (update_status (set_is_indexing false) w1);
     points := points fr;
     errors := errors fr |}.

Definition end_job (n : nat) (fr : Frame) : outcome unit * Frame :=
  match points fr with
  | [] => (Ok tt, finish_job n (world fr) fr)
  | _ :: _ =>
      match upsert (points fr) (world fr) with
      | (Ok _, w1) => (Ok tt, finish_job n w1 fr)
      | (Raise e, w1) =>
          (Raise e,
           {| world := w1; points := points fr; errors := errors fr |})
      end
  end.

(** The two halves of [found_files]. *)
Definition direct_matches (folder : string) : list Path.t :=
  glob env folder "*.jpg" ++ glob env folder "*.jpeg" ++
  glob env folder "*.png".

Definition recursive_matches (folder : string) : list Path.t :=
  rglob env folder "*.jpg" ++ rglob env folder "*.jpeg" ++
  rglob env folder "*.png".

(** *** Request handlers *)

Inductive Call : Type :=
| EmbedTextCall (query : string)
| StoreSearchCall (query_vector : list F) (limit : Z).

Record SearchHit : Type := {
  hit_score : F;
  hit_filename : pyval;
  hit_path : pyval;
  hit_description : pyval;
  hit_folder : pyval
}.

Inductive Body : Type :=
| ErrorBody (error : string)
| ExceptionBody (e : exn)                 (* [{"error": str(e)}] *)
| StartedBody (msg : string) (status : Status)
| StatusBody (status : Status)
| ResultsBody (query : string) (results : list SearchHit) (count : nat).

Record Response : Type := { code : nat; body : Body }.

(** JSON bodies of the two POST requests; an absent key is [None]. *)
Record StartRequest : Type := { folder : option string }.
Record SearchRequest : Type := { query : option string; top_k : option Z }.

Definition reset_status : Status :=
  {| is_indexing := true; progress := 0; total := 0;
     message := "Starting indexing..."; start_time := None;
     estimated_time := None |}.

(** [start_indexing]: the response, the world it leaves, and the argument
    of the thread it starts, if any.  The thread itself is
    [index_images_background]. *)
Definition start_indexing (req : StartRequest) (w : World)
    : Response * World * option string :=
  if is_indexing (indexing_status w) then
    ({| code := 400; body := ErrorBody "Indexing already in progress" |},
     w, None)
  else
    let image_folder := default "./scraped_images" (folder req) in
    if negb (path_exists env image_folder) then
      ({| code := 404;
          body := ErrorBody ("Folder not found: " +:+ image_folder) |},
       w, None)
    else
      let w' := set_status reset_status w in
      ({| code := 200;
          body := StartedBody "Indexing started" (indexing_status w') |},
       w', Some image_folder).

(** [get_indexing_status] *)
Definition get_indexing_status (w : World) : Response :=
  {| code := 200; body := StatusBody (indexing_status w) |}.

Definition log_call (c : Call) : M (list Call) unit :=
  modify (fun tr => tr ++ [c]).

Definition format_result (r : ScoredPoint) : M (list Call) SearchHit :=
  do fn <- lift_option KeyError (sp_payload r !! "filename");
  do pt <- lift_option KeyError (sp_payload r !! "path");
  ret {| hit_score := score r;
         hit_filename := fn;
         hit_path := pt;
         hit_description :=
           default (VStr "No description") (sp_payload r !! "description");
         hit_folder := default (VStr "") (sp_payload r !! "folder") |}.

Fixpoint format_results (rs : list ScoredPoint)
    : M (list Call) (list SearchHit) :=
  match rs with
  | [] => ret []
  | r :: rs' =>
      do h <- format_result r;
      do hs <- format_results rs';
      ret (h :: hs)
  end.

(** [search]: the response and the external calls made, in order. *)
Definition search (req : SearchRequest) (w : World)
    : Response * list Call :=
  let q := default "" (query req) in
  let k := default 12%Z (top_k req) in
  if decide (q = "") then
    ({| code := 400; body := ErrorBody "Query is required" |}, [])
  else
    let attempt : M (list Call) Response :=
      do _ <- log_call (EmbedTextCall q);
      do text_features <- lift_option ExternalError (clip_text env q);
      do _ <- log_call (StoreSearchCall text_features k);
      do results <- lift_option ExternalError
                      (knn env (collection w) text_features k);
      do formatted_results <- format_results results;
      ret {| code := 200;
             body := ResultsBody q formatted_results
                       (length formatted_results) |} in
    match attempt [] with
    | (Ok resp, calls) => (resp, calls)
    | (Raise e, calls) => ({| code := 500; body := ExceptionBody e |}, calls)
    end.

End App.

(** ** A reference world for concrete runs *)

Module Demo.

Import QFloat.

(** Three folders.  [imgs] holds [a.jpg] (described by [a.txt]), [b.jpg]
    (which does not decode) and [sub/c.jpg]; [broken] holds one image,
    which does not decode; [other] holds [z.png].  The clock advances two
    seconds per reading. *)
Definition direct (folder pat : string) : list Path.t :=
  if decide (folder = "imgs" /\ pat = "*.jpg")
  then [["imgs"; "a.jpg"]; ["imgs"; "b.jpg"]]
  else if decide (folder = "broken" /\ pat = "*.jpg")
  then [["broken"; "x.jpg"]]
  else if decide (folder = "other" /\ pat = "*.png")
  then [["other"; "z.png"]]
  else [].

Definition env : Env (F := Q) :=
  {| glob := direct;
     rglob := fun folder pat =>
       direct folder pat ++
       (if decide (folder = "imgs" /\ pat = "*.jpg")
        then [["imgs"; "sub"; "c.jpg"]] else []);
     read_text := fun p =>
       if decide (p = ["imgs"; "a.txt"])
       then Some (of_string "  a red sedan ") else None;
     path_exists := fun s =>
       bool_decide (s ∈ ["imgs"; "broken"; "other"]);
     absolute := fun p => "/" :: "srv" :: p;
     clip_image := fun p =>
       if decide (p = ["imgs"; "b.jpg"] \/ p = ["broken"; "x.jpg"])
       then None else Some [1%Q];
     clip_text := fun q => Some [1%Q];
     knn := fun c v k => Some [];
     clock := fun n => inject_Z (2 * Z.of_nat n);
     upsert_raises := fun _ => false |}.

Definition idle : World (F := Q) :=
  {| indexing_status := initial_status; collection := ∅;
     upsert_log := []; clock_reads := 0; upsert_calls := 0 |}.

Definition running : World (F := Q) :=
  {| indexing_status :=
       {| is_indexing := true; progress := 7; total := 20;
          message := "Processed 7/20 images";
          start_time := Some 0%Q;
          estimated_time := Some "26s remaining" |};
     collection := ∅; upsert_log := []; clock_reads := 8;
     upsert_calls := 0 |}.

(** The same surroundings with a clock that does not advance. *)
Definition frozen : Env (F := Q) :=
  {| glob := glob env; rglob := rglob env; read_text := read_text env;
     path_exists := path_exists env; absolute := absolute env;
     clip_image := clip_image env; clip_text := clip_text env;
     knn := knn env; clock := fun _ => 0%Q;
     upsert_raises := upsert_raises env |}.

(** A world in which the next clock reading is ten seconds. *)
Definition at_ten_seconds : World (F := Q) :=
  {| indexing_status := initial_status; collection := ∅;
     upsert_log := []; clock_reads := 5; upsert_calls := 0 |}.

(** The world a start request for [folder] leaves when made in [idle]. *)
Definition started (folder : string) : World (F := Q) :=
  (start_indexing env {| folder := Some folder |} idle).1.2.

End Demo.

(** ** Statistics and reading aids for [search] *)

Section More.

Context {F : Type} `{PyFloat F}.

(** Line 15: [device]. *)
Definition device (cuda_is_available : bool) : string :=
  if cuda_is_available then "cuda" else "cpu".

(** The body of the answer of [get_stats]. *)
Record Stats : Type := {
  total_images : nat;
  stats_device : string;
  stats_is_indexing : bool
}.

(** [client.get_collection("image_search").points_count]: the number of
    points in the collection; [None] when the call raises, which is the
    case [store_available = false]. *)
Definition points_count (store_available : bool) (w : World (F := F))
    : option nat :=
  if store_available then Some (size (collection w)) else None.

(** [get_stats] *)
Definition get_stats (cuda_is_available store_available : bool)
    (w : World (F := F)) : Stats :=
  match points_count store_available w with
  | Some n =>
      {| total_images := n;
         stats_device := device cuda_is_available;
         stats_is_indexing := is_indexing (indexing_status w) |}
  | None =>
      {| total_images := 0;
         stats_device := device cuda_is_available;
         stats_is_indexing := false |}
  end.

(** A payload holding the two keys that [search] reads with
    [payload['...']]. *)
Definition has_keys (m : gmap string pyval) : Prop :=
  is_Some (m !! "filename") /\ is_Some (m !! "path").

(** [h] is the display record of the store's hit [r]. *)
Definition shaped (r : ScoredPoint (F := F)) (h : SearchHit (F := F))
    : Prop :=
  hit_score h = score r /\
  sp_payload r !! "filename" = Some (hit_filename h) /\
  sp_payload r !! "path" = Some (hit_path h) /\
  hit_description h
    = default (VStr "No description") (sp_payload r !! "description") /\
  hit_folder h = default (VStr "") (sp_payload r !! "folder").

End More.

(** ** A second reference world, for searches *)

Module Demo2.

Definition hit_ok : ScoredPoint (F := Q) :=
  {| score := (9 # 10)%Q;
     sp_payload :=
       <["filename" := VStr "a.jpg"]>
       (<["path" := VPath ["/"; "srv"; "imgs"; "a.jpg"]]> ∅) |}.

(** A hit without a path. *)
Definition hit_bad : ScoredPoint (F := Q) :=
  {| score := (1 # 2)%Q;
     sp_payload := <["filename" := VStr "b.jpg"]> ∅ |}.

(** As [Demo.env], with an encoder that fails on "boom" and a store that
    answers with [hit_ok], followed by [hit_bad] when more than one hit is
    asked for. *)
Definition env : Env (F := Q) :=
  {| glob := glob Demo.env; rglob := rglob Demo.env;
     read_text := read_text Demo.env;
     path_exists := path_exists Demo.env; absolute := absolute Demo.env;
     clip_image := clip_image Demo.env;
     clip_text := fun q => if decide (q = "boom") then None else Some [1%Q];
     knn := fun c v k =>
       if decide (k = 1%Z) then Some [hit_ok] else Some [hit_ok; hit_bad];
     clock := clock Demo.env;
     upsert_raises := upsert_raises Demo.env |}.

(** As [Demo.env], with a store that answers with the points it holds
    under ids 0 and 2. *)
Definition echo : Env (F := Q) :=
  {| glob := glob Demo.env; rglob := rglob Demo.env;
     read_text := read_text Demo.env;
     path_exists := path_exists Demo.env; absolute := absolute Demo.env;
     clip_image := clip_image Demo.env;
     clip_text := clip_text Demo.env;
     knn := fun c v k =>
       Some (omap (fun i : nat =>
                     (fun p => {| score := 1%Q; sp_payload := payload p |})
                     <$> c !! i) [0; 2]);
     clock := clock Demo.env;
     upsert_raises := upsert_raises Demo.env |}.

(** As [Demo.env], with a store whose every [upsert] call raises. *)
Definition failing : Env (F := Q) :=
  {| glob := glob Demo.env; rglob := rglob Demo.env;
     read_text := read_text Demo.env;
     path_exists := path_exists Demo.env; absolute := absolute Demo.env;
     clip_image := clip_image Demo.env;
     clip_text := clip_text Demo.env;
     knn := knn Demo.env;
     clock := clock Demo.env;
     upsert_raises := fun _ => true |}.

(** A folder [links] in which [l.jpg] is a symbolic link to [a.jpg]: both
    names are listed by the searches, and [resolve], which stands for
    [Path.resolve], sends both to [a.jpg]. *)
Definition linked : Env (F := Q) :=
  {| glob := fun folder pat =>
       if decide (folder = "links" /\ pat = "*.jpg")
       then [["links"; "a.jpg"]; ["links"; "l.jpg"]] else [];
     rglob := fun folder pat =>
       if decide (folder = "links" /\ pat = "*.jpg")
       then [["links"; "a.jpg"]; ["links"; "l.jpg"]] else [];
     read_text := read_text Demo.env;
     path_exists := path_exists Demo.env; absolute := absolute Demo.env;
     clip_image := clip_image Demo.env;
     clip_text := clip_text Demo.env;
     knn := knn Demo.env;
     clock := clock Demo.env;
     upsert_raises := upsert_raises Demo.env |}.

Definition resolve (p : Path.t) : Path.t :=
  if decide (p = ["links"; "l.jpg"]) then ["links"; "a.jpg"] else p.

(** A frame of the loop over [other] under the clock that does not
    advance: the start time is the reading the estimator will get. *)
Definition frozen_frame : Frame (F := Q) :=
  {| world :=
       {| indexing_status :=
            {| is_indexing := true; progress := 0; total := 1;
               message := "Found 1 images"; start_time := Some 0%Q;
               estimated_time := None |};
          collection := ∅; upsert_log := []; clock_reads := 1;
          upsert_calls := 0 |};
     points := [];
     errors := 0 |}.

End Demo2.

(** * Properties *)

(** ** Trimming *)

Lemma lstrip_nil_iff (s : text) :
  lstrip s = [] <-> forallb isspace s = true.
Proof.
  induction s as [|c s IH]; simpl; [done|].
  destruct (isspace c); simpl; [exact IH|].
  split; discriminate.
Qed.

Lemma forallb_reverse {A} (f : A -> bool) (l : list A) :
  forallb f (reverse l) = forallb f l.
Proof.
  induction l as [|x l IH]; [done|].
  rewrite reverse_cons, forallb_app, IH. simpl.
  rewrite andb_true_r. apply andb_comm.
Qed.

Lemma lstrip_suffix (s : text) : exists pre,
  s = pre ++ lstrip s /\ forallb isspace pre = true.
Proof.
  induction s as [|c s (pre & Hs & Hpre)]; simpl.
  - by exists [].
  - destruct (isspace c) eqn:Hc.
    + exists (c :: pre). simpl. rewrite Hc, Hpre. split; [|done].
      by rewrite <- Hs.
    + by exists [].
Qed.

(** The content is empty after trimming exactly when it consists of
    white space only. *)
Lemma strip_nil_iff (s : text) :
  strip s = [] <-> forallb isspace s = true.
Proof.
  unfold strip, rstrip. split.
  - intros Hs.
    assert (Hl : lstrip (reverse (lstrip s)) = []).
    { apply (f_equal reverse) in Hs.
      by rewrite reverse_involutive in Hs. }
    apply lstrip_nil_iff in Hl. rewrite forallb_reverse in Hl.
    destruct (lstrip_suffix s) as (pre & Heq & Hpre).
    rewrite Heq, forallb_app, Hpre, Hl. done.
  - intros Hs. apply lstrip_nil_iff in Hs. by rewrite Hs.
Qed.

Lemma is_empty_true (s : text) : is_empty s = true <-> s = [].
Proof. by destruct s. Qed.

(** ** Paths *)

Lemma parent_snoc (p : Path.t) (x : string) : Path.parent (p ++ [x]) = p.
Proof. unfold Path.parent. apply removelast_last. Qed.

Lemma name_snoc (p : Path.t) (x : string) : Path.name (p ++ [x]) = x.
Proof. unfold Path.name. by rewrite last_snoc. Qed.

Lemma with_suffix_Some (p q : Path.t) (sfx : string) :
  Path.with_suffix p sfx = Some q ->
  Path.parent q = Path.parent p /\
  Path.name q = Path.stem (Path.name p) +:+ sfx.
Proof.
  unfold Path.with_suffix. case_decide; [done|].
  intros [= <-]. by rewrite parent_snoc, name_snoc.
Qed.

Section Handlers.

Context {F : Type} `{PyFloat F}.
Variable env : Env (F := F).

(** *** C6 *)

(** C6. The description of an image comes from the file next to it whose
    name is the image's stem followed by [.txt].  When that file cannot
    be read, or holds nothing but white space, the description is
    "No description"; otherwise it is the trimmed content.
    [read_description] is a total function into [text]: it has no
    exceptional outcome. *)
Theorem read_description_sidecar (image_file txt_file : Path.t) :
  Path.with_suffix image_file ".txt" = Some txt_file ->
  (Path.parent txt_file = Path.parent image_file /\
   Path.name txt_file = Path.stem (Path.name image_file) +:+ ".txt") /\
  (read_text env txt_file = None ->
   read_description env txt_file = of_string "No description") /\
  (forall raw, read_text env txt_file = Some raw ->
     strip raw = [] ->
     read_description env txt_file = of_string "No description") /\
  (forall raw, read_text env txt_file = Some raw ->
     strip raw <> [] ->
     read_description env txt_file = strip raw).
Proof.
  intros Hs. split; [by apply with_suffix_Some|].
  unfold read_description. repeat split.
  - by intros ->.
  - intros raw -> Hraw. by rewrite Hraw.
  - intros raw -> Hraw. destruct (strip raw); done.
Qed.

(** White-space-only content is the empty case. *)
Lemma read_description_blank (txt_file : Path.t) (raw : text) :
  read_text env txt_file = Some raw ->
  forallb isspace raw = true ->
  read_description env txt_file = no_description.
Proof.
  intros Hr Hb. apply strip_nil_iff in Hb.
  unfold read_description. by rewrite Hr, Hb.
Qed.

(** *** C5 *)

Lemma found_files_split (folder : string) :
  found_files env folder =
  direct_matches env folder ++ recursive_matches env folder.
Proof.
  unfold found_files, direct_matches, recursive_matches.
  by rewrite <- !app_assoc.
Qed.

Lemma scan_NoDup (folder : string) : NoDup (scan env folder).
Proof. apply NoDup_elements. Qed.

Lemma elem_of_scan (folder : string) (f : Path.t) :
  f ∈ scan env folder <-> f ∈ found_files env folder.
Proof. unfold scan. rewrite elem_of_elements. set_solver. Qed.

Lemma filter_eq_absent (x : Path.t) (l : list Path.t) :
  x ∉ l -> filter (fun y => y = x) l = [].
Proof.
  induction l as [|y l IH]; [done|].
  rewrite not_elem_of_cons, filter_cons. intros [Hne Hx].
  rewrite decide_False by congruence. auto.
Qed.

Lemma filter_eq_present (x : Path.t) (l : list Path.t) :
  x ∈ l -> 1 <= length (filter (fun y => y = x) l).
Proof.
  induction l as [|y l IH]; [by intros ?%elem_of_nil|].
  rewrite elem_of_cons, filter_cons. intros [->|Hx].
  - rewrite decide_True by done. simpl. lia.
  - case_decide; simpl; [lia|auto].
Qed.

Lemma filter_eq_NoDup (x : Path.t) (l : list Path.t) :
  NoDup l -> x ∈ l -> length (filter (fun y => y = x) l) = 1.
Proof.
  induction 1 as [|y l Hy Hl IH]; [by intros ?%elem_of_nil|].
  rewrite elem_of_cons, filter_cons. intros [->|Hx].
  - rewrite decide_True by done. simpl.
    by rewrite filter_eq_absent.
  - rewrite decide_False; [auto|]. by intros ->.
Qed.

(** C5, as the code has it.  Duplicates are removed by equality of the
    paths as the searches return them; no path is resolved.  A path
    returned by one of the direct searches and by one of the recursive
    searches occurs at least twice among the concatenated matches and
    exactly once in the scanned sequence, which has no repetition at
    all. *)
Theorem scan_direct_and_recursive_once (folder : string) (f : Path.t) :
  f ∈ direct_matches env folder ->
  f ∈ recursive_matches env folder ->
  2 <= length (filter (fun y => y = f) (found_files env folder)) /\
  length (filter (fun y => y = f) (scan env folder)) = 1 /\
  NoDup (scan env folder).
Proof.
  intros Hd Hr. split; [|split].
  - rewrite found_files_split, filter_app, length_app.
    apply filter_eq_present in Hd, Hr. lia.
  - apply filter_eq_NoDup; [apply scan_NoDup|].
    apply elem_of_scan. rewrite found_files_split, elem_of_app. by left.
  - apply scan_NoDup.
Qed.

(** *** C7 *)

Lemma estimate_zero (total : Z) (st : option F) (w : World) :
  estimate_time_remaining env 0 total st w = (Ok "Calculating...", w).
Proof. reflexivity. Qed.

(** C7. With no item processed the estimate is "Calculating..." and the
    clock is not read.  Otherwise let [rate] be the processed count
    divided by the time elapsed since the start, and [remaining] the
    count of items left divided by [rate]: the estimate is [remaining]
    in whole seconds when it is below 60, in whole minutes when it is
    below 3600, and in whole hours followed by the whole minutes of the
    rest otherwise. *)
Theorem estimate_time_remaining_cases (total : Z) :
  (forall st w,
     estimate_time_remaining env 0 total st w = (Ok "Calculating...", w))
  /\
  (forall (progress : Z) (t0 : F) (w : World) (rate remaining : F),
     progress <> 0%Z ->
     fdiv (of_Z progress) (fsub (clock env (clock_reads w)) t0)
       = Some rate ->
     fdiv (of_Z (total - progress)) rate = Some remaining ->
     let result :=
       fst (estimate_time_remaining env progress total (Some t0) w) in
     (flt remaining (of_Z 60) = true ->
      forall s, to_int remaining = Some s ->
        result = Ok (pretty s +:+ "s remaining")) /\
     (flt remaining (of_Z 60) = false ->
      flt remaining (of_Z 3600) = true ->
      forall q m,
        fdiv remaining (of_Z 60) = Some q -> to_int q = Some m ->
        result = Ok (pretty m +:+ "m remaining")) /\
     (flt remaining (of_Z 60) = false ->
      flt remaining (of_Z 3600) = false ->
      forall q h r q' m,
        fdiv remaining (of_Z 3600) = Some q -> to_int q = Some h ->
        fmod remaining (of_Z 3600) = Some r ->
        fdiv r (of_Z 60) = Some q' -> to_int q' = Some m ->
        result = Ok (pretty h +:+ "h " +:+ pretty m +:+ "m remaining"))).
Proof.
  split; [done|].
  intros progress t0 w rate remaining Hp Hrate Hrem result.
  assert (E : result =
    fst (estimate_time_remaining env progress total (Some t0) w)) by done.
  clearbody result.
  unfold estimate_time_remaining in E.
  apply Z.eqb_neq in Hp. rewrite Hp in E.
  unfold bind at 1, time_time in E.
  unfold bind at 1, ret at 1 in E.
  unfold bind at 1 in E. rewrite Hrate in E.
  simpl lift_option in E. unfold ret at 1 in E.
  unfold bind at 1 in E. rewrite Hrem in E.
  simpl lift_option in E. unfold ret at 1 in E.
  repeat split.
  - intros Hs s Hi. rewrite Hs in E. unfold bind in E.
    rewrite Hi in E. exact E.
  - intros Hs Hm q m Hq Hi. rewrite Hs, Hm in E. unfold bind in E.
    rewrite Hq in E. simpl in E. rewrite Hi in E. exact E.
  - intros Hs Hm q h r q' m Hq Hh Hr Hq' Hi. rewrite Hs, Hm in E.
    unfold bind in E. rewrite Hq in E. simpl in E. rewrite Hh in E.
    simpl in E. rewrite Hr in E. simpl in E. rewrite Hq' in E.
    simpl in E. rewrite Hi in E. exact E.
Qed.

(** A start time equal to the clock reading makes the first division
    fail; the exception leaves the estimator. *)
Lemma estimate_zero_elapsed (progress total : Z) (t0 : F) (w : World) :
  progress <> 0%Z ->
  fdiv (of_Z progress) (fsub (clock env (clock_reads w)) t0) = None ->
  fst (estimate_time_remaining env progress total (Some t0) w)
  = Raise ZeroDivisionError.
Proof.
  intros Hp%Z.eqb_neq Hd. unfold estimate_time_remaining. rewrite Hp.
  unfold bind at 1, time_time. unfold bind at 1, ret at 1.
  unfold bind at 1. by rewrite Hd.
Qed.

(** *** C2 *)

(** C2. While a job is running a start request is answered with status
    400 and the error "Indexing already in progress"; the world,
    counters included, is left as it was and no thread is started. *)
Theorem start_indexing_while_running (req : StartRequest) (w : World) :
  is_indexing (indexing_status w) = true ->
  start_indexing env req w =
  ({| code := 400; body := ErrorBody "Indexing already in progress" |},
   w, None).
Proof. intros Hr. unfold start_indexing. by rewrite Hr. Qed.

(** *** C3 *)

(** C3, as the code has it.  A start request for a folder that does not
    exist leaves the world as it was and starts no thread.  It is
    answered with status 404 and "Folder not found: ..." when no job is
    running; while a job is running the running check comes first and
    the answer is the 400 of C2. *)
Theorem start_indexing_missing_folder (req : StartRequest) (w : World) :
  path_exists env (default "./scraped_images" (folder req)) = false ->
  start_indexing env req w =
  (if is_indexing (indexing_status w)
   then {| code := 400; body := ErrorBody "Indexing already in progress" |}
   else {| code := 404;
           body := ErrorBody ("Folder not found: " +:+
                     default "./scraped_images" (folder req)) |},
   w, None).
Proof.
  intros He. unfold start_indexing.
  destruct (is_indexing (indexing_status w)); [done|]. by rewrite He.
Qed.

(** *** C9 *)

(** C9. A search whose query is the empty string (given, or by default
    when the key is absent) is answered with status 400 and "Query is
    required"; neither the text encoder nor the store is called. *)
Theorem search_empty_query (req : SearchRequest) (w : World) :
  default "" (query req) = "" ->
  search env req w =
  ({| code := 400; body := ErrorBody "Query is required" |}, []).
Proof. intros Hq. unfold search. by rewrite decide_True. Qed.

Lemma format_results_trace (rs : list (@ScoredPoint F))
    (tr : list (@Call F)) :
  snd (format_results rs tr) = tr.
Proof.
  induction rs as [|r rs IH]; [done|].
  simpl. unfold bind at 1, format_result. unfold bind at 1.
  destruct (sp_payload r !! "filename"); simpl; [|done].
  unfold bind at 1. destruct (sp_payload r !! "path"); simpl; [|done].
  unfold bind. specialize IH.
  destruct (format_results rs tr) as [[hs|e] tr']; simpl in *; done.
Qed.

(** For any other query the encoder is called first. *)
Lemma search_nonempty_query (req : SearchRequest) (w : World) :
  default "" (query req) <> "" ->
  exists calls,
    snd (search env req w)
    = EmbedTextCall (default "" (query req)) :: calls.
Proof.
  intros Hq. unfold search. rewrite decide_False by done.
  unfold bind at 1, log_call, modify. unfold bind at 1.
  destruct (clip_text env _) as [v|]; simpl; [|by eexists].
  unfold bind at 1. simpl. unfold bind at 1.
  destruct (knn env _ _ _) as [rs|]; simpl; [|by eexists].
  unfold bind.
  pose proof (format_results_trace rs
    [EmbedTextCall (default "" (query req));
     StoreSearchCall v (default 12%Z (top_k req))]) as Ht.
  destruct (format_results rs _) as [[hs|e] calls]; simpl in *;
    subst calls; by eexists.
Qed.

End Handlers.

(** ** The indexing job *)

Section Job.

Context {F : Type} `{PyFloat F}.
Variable env : Env (F := F).

Lemma batch_size_eq : batch_size = 100.
Proof. reflexivity. Qed.

Opaque batch_size.

Lemma loop_body_eq (n : nat) (item : nat * Path.t) (fr : Frame) :
  loop_body env n item fr =
  (Ok tt, match record_of env item with
          | None => incr_errors fr
          | Some pt => after_record env n item.1 pt fr
          end).
Proof.
  destruct item as [idx image_file]. destruct fr as [w pts errs].
  unfold loop_body, record_of, try_except. simpl.
  unfold bind at 1.
  destruct (Path.with_suffix image_file ".txt") as [txt|]; simpl; [|done].
  destruct (embed_image env image_file) as [v|]; simpl; [|done].
  unfold after_record. simpl.
  unfold bind at 1. simpl. unfold bind at 1. simpl. unfold bind at 1. simpl.
  unfold bind at 1. simpl.
  destruct (Nat.leb batch_size (length _)); simpl.
  - unfold bind at 1, in_world. simpl. unfold upsert.
    destruct (upsert_raises env (upsert_calls w)); simpl; [done|].
    unfold bind at 1. simpl. unfold bind at 1. simpl.
    unfold bind at 1. simpl. unfold finish_record. simpl.
    destruct (estimate_time_remaining env _ _ _ _) as [[eta|e] w3]; done.
  - unfold bind at 1. simpl. unfold bind at 1. simpl.
    unfold bind at 1, in_world. simpl. unfold finish_record. simpl.
    destruct (estimate_time_remaining env _ _ _ _) as [[eta|e] w3]; done.
Qed.

Lemma for_each_loop_body (n : nat) (items : list (nat * Path.t))
    (fr : Frame) :
  for_each (loop_body env n) items fr
  = (Ok tt, foldl (iteration env n) fr items).
Proof.
  revert fr. induction items as [|item items IH]; intros fr; [done|].
  simpl. unfold bind. rewrite loop_body_eq. apply IH.
Qed.

Lemma after_loop_eq (n : nat) (fr : Frame) :
  (do pts <- gets points;
   do _ <- (match pts with
            | [] => ret tt
            | _ :: _ => in_world (upsert env pts)
            end);
   do _ <- status_update (set_is_indexing false);
   do errs <- gets errors;
   status_update (set_message
     ("✅ Completed! Indexed " +:+
      pretty (Z.of_nat n - Z.of_nat errs)%Z +:+ " images ("
      +:+ pretty errs +:+ " errors)"))) fr
  = end_job env n fr.
Proof.
  destruct fr as [w pts errs]. unfold end_job. simpl.
  unfold bind at 1. simpl. destruct pts as [|p pts].
  - reflexivity.
  - unfold bind at 1, in_world. simpl.
    destruct (upsert env (p :: pts) w) as [[[]|e] w1]; reflexivity.
Qed.

(** The run as a whole: [begin_job], the iterations, [end_job]. *)
Lemma index_images_background_eq (image_folder : string) (w : World) :
  index_images_background env image_folder w =
  let n := length (scan env image_folder) in
  end_job env n (foldl (iteration env n) (begin_job env n w)
                   (enumerate (scan env image_folder))).
Proof.
  unfold index_images_background, index_images_job. cbv zeta.
  unfold bind at 1. simpl. unfold bind at 1. simpl.
  unfold bind at 1. simpl. unfold bind at 1. simpl.
  unfold bind at 1. simpl. unfold bind at 1.
  rewrite for_each_loop_body.
  etrans; [apply after_loop_eq|]. reflexivity.
Qed.

(** *** What one iteration changes *)

(** The estimator reads the clock and touches nothing else. *)
Lemma estimate_world (progress total : Z) (st : option F) (w : World) :
  let w' := snd (estimate_time_remaining env progress total st w) in
  indexing_status w' = indexing_status w /\
  collection w' = collection w /\
  upsert_log w' = upsert_log w /\
  upsert_calls w' = upsert_calls w.
Proof.
  unfold estimate_time_remaining, bind, time_time, lift_option, ret, raise.
  repeat case_match; simplify_eq; done.
Qed.

Lemma store_points_app (a b : list (@PointStruct F))
    (c : gmap nat (@PointStruct F)) :
  store_points (a ++ b) c = store_points b (store_points a c).
Proof. unfold store_points. apply foldl_app. Qed.

Lemma finish_record_fields (n idx : nat) (pts : list PointStruct)
    (errs : nat) (w1 : World) :
  let fr' := finish_record env n idx pts errs w1 in
  points fr' = pts /\
  upsert_log (world fr') = upsert_log w1 /\
  collection (world fr') = collection w1 /\
  upsert_calls (world fr') = upsert_calls w1 /\
  progress (indexing_status (world fr')) = idx + 1 /\
  total (indexing_status (world fr')) = total (indexing_status w1) /\
  start_time (indexing_status (world fr'))
    = start_time (indexing_status w1) /\
  is_indexing (indexing_status (world fr'))
    = is_indexing (indexing_status w1) /\
  errs <= errors fr' <= S errs.
Proof.
  unfold finish_record. simpl.
  match goal with
  | |- context [estimate_time_remaining env ?a ?b ?c ?d] =>
      pose proof (estimate_world a b c d) as (Hs & Hc & Hl & Hu);
      destruct (estimate_time_remaining env a b c d) as [[eta|e] w3]
  end; simpl in *; rewrite ?Hs, ?Hc, ?Hl, ?Hu; repeat split; lia || done.
Qed.

(** What happens to the batch, always; and its size when the store
    answers the call made, if one is made. *)
Lemma after_record_store (n idx : nat) (pt : PointStruct) (fr : Frame) :
  let fr' := after_record env n idx pt fr in
  exists bs,
    upsert_log (world fr') = upsert_log (world fr) ++ bs /\
    collection (world fr')
      = store_points (concat bs) (collection (world fr)) /\
    concat bs ++ points fr' = points fr ++ [pt] /\
    upsert_calls (world fr) <= upsert_calls (world fr') /\
    (upsert_raises env (upsert_calls (world fr)) = false ->
     length (points fr) < batch_size ->
     Forall (fun b => length b = batch_size) bs /\
     length (points fr') < batch_size).
Proof.
  unfold after_record. cbv zeta.
  destruct (Nat.leb batch_size (length (points fr ++ [pt]))) eqn:Hfull.
  - apply Nat.leb_le in Hfull. rewrite length_app in Hfull. simpl in Hfull.
    unfold upsert.
    destruct (upsert_raises env (upsert_calls (world fr))) eqn:Hr.
    + exists []. simpl. rewrite app_nil_r. repeat split; try done. lia.
    + pose proof (finish_record_fields n idx [] (errors fr)
        {| indexing_status := indexing_status (world fr);
           collection := store_points (points fr ++ [pt])
                           (collection (world fr));
           upsert_log := upsert_log (world fr) ++ [points fr ++ [pt]];
           clock_reads := clock_reads (world fr);
           upsert_calls := S (upsert_calls (world fr)) |})
        as (Hp & Hl & Hc & Hu & _).
      cbv zeta in *. simpl in Hl, Hc, Hu.
      exists [points fr ++ [pt]]. rewrite Hp, Hl, Hc, Hu. simpl.
      rewrite !app_nil_r. repeat split; try done; try lia.
      apply Forall_singleton. rewrite length_app. simpl. lia.
  - apply Nat.leb_gt in Hfull.
    pose proof (finish_record_fields n idx (points fr ++ [pt]) (errors fr)
      (world fr)) as (Hp & Hl & Hc & Hu & _).
    cbv zeta in *.
    exists []. rewrite Hp, Hl, Hc, Hu. simpl. rewrite app_nil_r.
    repeat split; done.
Qed.

Lemma after_record_status (n idx : nat) (pt : PointStruct) (fr : Frame) :
  let st := indexing_status (world fr) in
  let st' := indexing_status (world (after_record env n idx pt fr)) in
  total st' = total st /\
  start_time st' = start_time st /\
  is_indexing st' = is_indexing st /\
  (progress st' = idx + 1 \/ progress st' = progress st) /\
  (upsert_raises env (upsert_calls (world fr)) = false ->
   progress st' = idx + 1).
Proof.
  unfold after_record. cbv zeta.
  destruct (Nat.leb batch_size (length (points fr ++ [pt]))).
  - unfold upsert.
    destruct (upsert_raises env (upsert_calls (world fr))) eqn:Hr.
    + simpl. repeat split; try done. by right.
    + match goal with
      | |- context [finish_record env n idx ?a ?b ?c] =>
          pose proof (finish_record_fields n idx a b c)
            as (_ & _ & _ & _ & Hp & Ht & Hs & Hi & _)
      end.
      cbv zeta in *. simpl in Ht, Hs, Hi. rewrite Hp, Ht, Hs, Hi.
      repeat split; try done. by left.
  - pose proof (finish_record_fields n idx (points fr ++ [pt]) (errors fr)
      (world fr)) as (_ & _ & _ & _ & Hp & Ht & Hs & Hi & _).
    cbv zeta in *. rewrite Hp, Ht, Hs, Hi.
    repeat split; try done. by left.
Qed.

Lemma after_record_errors (n idx : nat) (pt : PointStruct) (fr : Frame) :
  let e' := errors (after_record env n idx pt fr) in
  errors fr <= e' <= S (errors fr).
Proof.
  unfold after_record. cbv zeta.
  destruct (Nat.leb batch_size (length (points fr ++ [pt]))).
  - destruct (upsert env _ _) as [[[]|e] w1].
    + apply finish_record_fields.
    + simpl. lia.
  - apply finish_record_fields.
Qed.

(** *** Enumeration and the appended points *)

Lemma enumerate_fst {A} (l : list A) : (enumerate l).*1 = seq 0 (length l).
Proof. unfold enumerate. apply fst_zip. by rewrite length_seq. Qed.

Lemma enumerate_lookup {A} (l : list A) (i : nat) (j : nat) (x : A) :
  enumerate l !! i = Some (j, x) <-> j = i /\ l !! i = Some x.
Proof.
  unfold enumerate. rewrite lookup_zip_with_Some. split.
  - intros (a & b & [= -> ->] & Ha & Hb).
    apply lookup_seq in Ha as [-> _]. done.
  - intros [-> Hx]. exists i, x. split; [done|]. split; [|done].
    apply lookup_seq. split; [done|]. by eapply lookup_lt_Some.
Qed.

Lemma elem_of_enumerate {A} (l : list A) (j : nat) (x : A) :
  (j, x) ∈ enumerate l <-> l !! j = Some x.
Proof.
  rewrite list_elem_of_lookup. split.
  - intros [i [-> Hx]%enumerate_lookup]. done.
  - intros Hx. exists j. by apply enumerate_lookup.
Qed.

Lemma enumerate_snoc {A} (l : list A) (x : A) :
  enumerate (l ++ [x]) = enumerate l ++ [(length l, x)].
Proof.
  unfold enumerate. rewrite length_app. simpl length.
  rewrite Nat.add_1_r, seq_S.
  rewrite zip_with_app by (by rewrite length_seq). done.
Qed.

Lemma record_of_id (item : nat * Path.t) (p : PointStruct) :
  record_of env item = Some p -> id p = item.1.
Proof.
  unfold record_of. destruct (Path.with_suffix _ _); [|done].
  destruct (embed_image env _); [|done]. by intros [= <-].
Qed.

Lemma record_of_fields (idx : nat) (f : Path.t) (p : PointStruct) :
  record_of env (idx, f) = Some p ->
  embed_image env f = Some (vector p) /\
  payload p !! "filename" = Some (VStr (Path.name f)).
Proof.
  unfold record_of. simpl. destruct (Path.with_suffix _ _); [|done].
  destruct (embed_image env f); [|done]. intros [= <-]. simpl.
  split; [done|]. apply lookup_insert_eq.
Qed.

Lemma record_of_embed_None (idx : nat) (f : Path.t) :
  embed_image env f = None -> record_of env (idx, f) = None.
Proof.
  intros He. unfold record_of. simpl.
  destruct (Path.with_suffix _ _); [|done]. by rewrite He.
Qed.

Lemma elem_of_records (items : list (nat * Path.t)) (p : PointStruct) :
  p ∈ records env items <->
  exists item, item ∈ items /\ record_of env item = Some p.
Proof. unfold records. apply list_elem_of_omap. Qed.

Lemma records_ids_sublist (items : list (nat * Path.t)) :
  id <$> records env items `sublist_of` items.*1.
Proof.
  unfold records. induction items as [|item items IH]; simpl; [done|].
  destruct (record_of env item) as [p|] eqn:Hp; simpl.
  - rewrite (record_of_id _ _ Hp). by apply sublist_skip.
  - by apply sublist_cons.
Qed.

Lemma records_ids_positions (files : list Path.t) :
  id <$> records env (enumerate files) `sublist_of` seq 0 (length files).
Proof. rewrite <- enumerate_fst. apply records_ids_sublist. Qed.

Lemma records_ids_NoDup (files : list Path.t) :
  NoDup (id <$> records env (enumerate files)).
Proof.
  eapply sublist_NoDup; [apply NoDup_seq|apply records_ids_positions].
Qed.

Lemma records_app (a b : list (nat * Path.t)) :
  records env (a ++ b) = records env a ++ records env b.
Proof. unfold records. apply omap_app. Qed.

Lemma records_cons (item : nat * Path.t) (items : list (nat * Path.t)) :
  records env (item :: items) = records env [item] ++ records env items.
Proof. change (item :: items) with ([item] ++ items). apply records_app. Qed.

Lemma records_length (items : list (nat * Path.t)) :
  length (records env items) <= length items.
Proof.
  induction items as [|item items IH]; [done|].
  rewrite records_cons, length_app. unfold records at 1. simpl.
  destruct (record_of env item); simpl; lia.
Qed.

(** *** The store *)

Lemma store_points_absent (l : list (@PointStruct F))
    (c : gmap nat (@PointStruct F)) (i : nat) :
  i ∉ id <$> l -> store_points l c !! i = c !! i.
Proof.
  revert c. induction l as [|p l IH]; intros c; [done|].
  rewrite fmap_cons, not_elem_of_cons. intros [Hne Hl].
  unfold store_points in *. simpl. rewrite IH by done.
  by rewrite lookup_insert_ne.
Qed.

Lemma store_points_present (l : list (@PointStruct F))
    (c : gmap nat (@PointStruct F)) (p : @PointStruct F) :
  NoDup (id <$> l) -> p ∈ l -> store_points l c !! id p = Some p.
Proof.
  revert c. induction l as [|q l IH]; intros c; [by intros _ ?%elem_of_nil|].
  rewrite fmap_cons, NoDup_cons, elem_of_cons. intros [Hq Hl] [->|Hp].
  - change (store_points (q :: l) c)
      with (store_points l (<[id q := q]> c)).
    rewrite store_points_absent by done. apply lookup_insert_eq.
  - change (store_points (q :: l) c)
      with (store_points l (<[id q := q]> c)).
    by apply IH.
Qed.

(** *** Invariants of the loop *)

Lemma iteration_store (n : nat) (fr : Frame) (item : nat * Path.t) :
  let fr' := iteration env n fr item in
  exists bs,
    upsert_log (world fr') = upsert_log (world fr) ++ bs /\
    collection (world fr')
      = store_points (concat bs) (collection (world fr)) /\
    concat bs ++ points fr' = points fr ++ records env [item] /\
    upsert_calls (world fr) <= upsert_calls (world fr') /\
    (upsert_raises env (upsert_calls (world fr)) = false ->
     length (points fr) < batch_size ->
     Forall (fun b => length b = batch_size) bs /\
     length (points fr') < batch_size).
Proof.
  unfold iteration, records. simpl.
  destruct (record_of env item) as [pt|]; simpl.
  - apply after_record_store.
  - exists []. simpl. rewrite !app_nil_r. repeat split; done.
Qed.

(** Whatever the store does, the points of the items visited are those
    stored followed by those waiting; when the store answers, the batches
    stored are full and fewer than [batch_size] points wait. *)
Lemma loop_store (n : nat) (items : list (nat * Path.t)) (fr : Frame) :
  let fr' := foldl (iteration env n) fr items in
  exists bs,
    upsert_log (world fr') = upsert_log (world fr) ++ bs /\
    collection (world fr')
      = store_points (concat bs) (collection (world fr)) /\
    concat bs ++ points fr' = points fr ++ records env items /\
    upsert_calls (world fr) <= upsert_calls (world fr') /\
    (answers_from env (upsert_calls (world fr)) ->
     length (points fr) < batch_size ->
     Forall (fun b => length b = batch_size) bs /\
     length (points fr') < batch_size).
Proof.
  revert fr. induction items as [|item items IH]; intros fr.
  - exists []. simpl. rewrite !app_nil_r. repeat split; done.
  - cbn [foldl].
    destruct (iteration_store n fr item)
      as (bs1 & Hl1 & Hc1 & Hp1 & Hu1 & Hs1).
    destruct (IH (iteration env n fr item))
      as (bs2 & Hl2 & Hc2 & Hp2 & Hu2 & Hs2).
    exists (bs1 ++ bs2). rewrite Hl2, Hl1, Hc2, Hc1.
    rewrite concat_app, store_points_app, <- !app_assoc.
    split; [done|]. split; [done|]. split.
    { rewrite Hp2, app_assoc, Hp1, <- app_assoc.
      by rewrite <- records_cons. }
    split; [lia|].
    intros Hall Hlen.
    destruct (Hs1 (Hall _ (Nat.le_refl _)) Hlen) as [Hf1 Hlen1].
    destruct Hs2 as [Hf2 Hlen2]; [|done|].
    { intros j Hj. apply Hall. lia. }
    split; [by apply Forall_app|done].
Qed.

Lemma iteration_status (n : nat) (fr : Frame) (item : nat * Path.t) :
  let st := indexing_status (world fr) in
  let st' := indexing_status (world (iteration env n fr item)) in
  total st' = total st /\
  start_time st' = start_time st /\
  is_indexing st' = is_indexing st /\
  (progress st' = item.1 + 1 \/ progress st' = progress st) /\
  (record_of env item = None -> progress st' = progress st) /\
  (upsert_raises env (upsert_calls (world fr)) = false ->
   progress st' = match record_of env item with
                  | Some _ => item.1 + 1
                  | None => progress st
                  end).
Proof.
  unfold iteration. destruct (record_of env item) as [pt|].
  - pose proof (after_record_status n item.1 pt fr)
      as (? & ? & ? & ? & ?).
    repeat split; done.
  - repeat split; try done. by right.
Qed.

Lemma loop_status (n : nat) (items : list (nat * Path.t)) (fr : Frame) :
  let st := indexing_status (world fr) in
  let st' := indexing_status (world (foldl (iteration env n) fr items)) in
  total st' = total st /\
  start_time st' = start_time st /\
  is_indexing st' = is_indexing st.
Proof.
  revert fr. induction items as [|item items IH]; intros fr; [done|].
  simpl. destruct (IH (iteration env n fr item)) as (-> & -> & ->).
  pose proof (iteration_status n fr item) as (? & ? & ? & _). done.
Qed.

(** The counter never runs ahead of the positions visited. *)
Lemma loop_progress_bound (n m : nat) (items : list (nat * Path.t))
    (fr : Frame) :
  Forall (fun item => item.1 < m) items ->
  progress (indexing_status (world fr)) <= m ->
  progress (indexing_status (world (foldl (iteration env n) fr items))) <= m.
Proof.
  revert fr. induction items as [|item items IH]; intros fr Hall Hp; [done|].
  apply Forall_cons in Hall as [Hi Hall]. simpl. apply IH; [done|].
  pose proof (iteration_status n fr item) as (_ & _ & _ & [->| ->] & _);
    lia.
Qed.

Lemma loop_progress_last (n : nat) (items : list (nat * Path.t))
    (fr : Frame) :
  answers_from env (upsert_calls (world fr)) ->
  progress (indexing_status (world (foldl (iteration env n) fr items)))
  = match last (records env items) with
    | Some p => id p + 1
    | None => progress (indexing_status (world fr))
    end.
Proof.
  revert fr. induction items as [|item items IH]; intros fr Hans; [done|].
  cbn [foldl].
  destruct (iteration_store n fr item) as (_ & _ & _ & _ & Hu & _).
  rewrite IH by (intros j Hj; apply Hans; lia).
  rewrite records_cons.
  pose proof (iteration_status n fr item) as (_ & _ & _ & _ & _ & Hp).
  specialize (Hp (Hans _ (Nat.le_refl _))).
  cbv zeta in Hp. unfold records at 2. cbn [omap list_omap].
  destruct (record_of env item) as [p|] eqn:Hr; cbn [app].
  - rewrite last_cons.
    destruct (last (records env items)); [done|].
    by rewrite Hp, (record_of_id _ _ Hr).
  - by rewrite Hp.
Qed.

Lemma iteration_errors (n : nat) (fr : Frame) (item : nat * Path.t) :
  let e' := errors (iteration env n fr item) in
  errors fr + (1 - length (records env [item])) <= e' <= S (errors fr).
Proof.
  unfold iteration, records. simpl.
  destruct (record_of env item) as [pt|]; simpl.
  - pose proof (after_record_errors n item.1 pt fr). simpl in *. lia.
  - lia.
Qed.

Lemma loop_errors (n : nat) (items : list (nat * Path.t)) (fr : Frame) :
  let e' := errors (foldl (iteration env n) fr items) in
  errors fr + (length items - length (records env items)) <= e'
  /\ e' <= errors fr + length items.
Proof.
  revert fr. induction items as [|item items IH]; intros fr; [simpl; lia|].
  cbn [foldl]. specialize (IH (iteration env n fr item)).
  cbv zeta in IH. rewrite records_cons, length_app.
  pose proof (records_length items) as Hle.
  pose proof (records_length [item]) as Hle1.
  pose proof (iteration_errors n fr item) as He. cbv zeta in He.
  cbn [length] in *. lia.
Qed.

(** *** The run as a whole *)

Lemma begin_job_fields (n : nat) (w : World) :
  let fr := begin_job env n w in
  points fr = [] /\ errors fr = 0 /\
  upsert_log (world fr) = upsert_log w /\
  collection (world fr) = collection w /\
  upsert_calls (world fr) = upsert_calls w /\
  total (indexing_status (world fr)) = n /\
  progress (indexing_status (world fr)) = 0 /\
  start_time (indexing_status (world fr)) = Some (clock env (clock_reads w))
  /\ is_indexing (indexing_status (world fr))
     = is_indexing (indexing_status w).
Proof. done. Qed.

(** The statements after the loop: either they run to the end, or the
    call that sends the waiting points raises and nothing else happens. *)
Lemma end_job_cases (n : nat) (fr : Frame) :
  let r := end_job env n fr in
  let st := indexing_status (world fr) in
  let st' := indexing_status (world (snd r)) in
  errors (snd r) = errors fr /\
  progress st' = progress st /\ total st' = total st /\
  start_time st' = start_time st /\
  ((fst r = Ok tt /\
    is_indexing st' = false /\
    message st' =
      "✅ Completed! Indexed " +:+
      pretty (Z.of_nat n - Z.of_nat (errors fr))%Z +:+ " images (" +:+
      pretty (errors fr) +:+ " errors)" /\
    (points fr <> [] ->
     upsert_raises env (upsert_calls (world fr)) = false) /\
    exists bs,
      upsert_log (world (snd r)) = upsert_log (world fr) ++ bs /\
      collection (world (snd r))
        = store_points (concat bs) (collection (world fr)) /\
      concat bs = points fr /\
      Forall (fun b => 1 <= length b) bs /\ length bs <= 1)
   \/
   (fst r = Raise ExternalError /\
    points fr <> [] /\
    upsert_raises env (upsert_calls (world fr)) = true /\
    st' = st /\
    upsert_log (world (snd r)) = upsert_log (world fr) /\
    collection (world (snd r)) = collection (world fr))).
Proof.
  unfold end_job. cbv zeta. destruct (points fr) as [|p pts] eqn:Hp.
  - simpl. repeat split; try done. left. repeat split; try done.
    exists []. simpl. rewrite app_nil_r.
    repeat split; try done. lia.
  - unfold upsert.
    destruct (upsert_raises env (upsert_calls (world fr))) eqn:Hr; simpl.
    + repeat split; try done. right. repeat split; try done.
    + repeat split; try done. left. repeat split; try done.
      exists [p :: pts]. simpl. rewrite app_nil_r.
      repeat split; try done.
      apply Forall_singleton. simpl. lia.
Qed.

Lemma run_status (image_folder : string) (w : World) :
  let run := index_images_background env image_folder w in
  let st := indexing_status (world (snd run)) in
  total st = length (scan env image_folder) /\
  progress st <= total st /\
  start_time st = Some (clock env (clock_reads w)) /\
  (fst run = Ok tt -> is_indexing st = false) /\
  (fst run <> Ok tt ->
   is_indexing st = is_indexing (indexing_status w)).
Proof.
  rewrite index_images_background_eq. cbv zeta.
  set (n := length (scan env image_folder)).
  set (fr0 := begin_job env n w).
  set (items := enumerate (scan env image_folder)).
  pose proof (end_job_cases n (foldl (iteration env n) fr0 items))
    as (_ & Hp & Ht & Hs & Hcases).
  pose proof (loop_status n items fr0) as (Ht' & Hs' & Hi').
  pose proof (begin_job_fields n w)
    as (_ & _ & _ & _ & _ & Hn & Hp0 & Hs0 & Hi0).
  cbv zeta in *. fold fr0 in Hn, Hp0, Hs0, Hi0.
  rewrite Hp, Ht, Hs, Ht', Hs', Hn, Hs0.
  split; [done|]. split.
  { apply loop_progress_bound; [|lia].
    apply Forall_forall. intros [j f] Hj%elem_of_enumerate.
    apply lookup_lt_Some in Hj. done. }
  split; [done|].
  destruct Hcases as [(Hok & Hfalse & _)|(Hraise & _ & _ & Hst & _)].
  - split; [done|]. intros Hne. by rewrite Hok in Hne.
  - split; [intros Hok; by rewrite Hraise in Hok|].
    intros _. by rewrite Hst, Hi', Hi0.
Qed.

(** When the file visited last yields no point, the counter ends below
    the total. *)
Lemma run_last_failed (image_folder : string) (w : World)
    (files : list Path.t) (f : Path.t) :
  scan env image_folder = files ++ [f] ->
  record_of env (length files, f) = None ->
  let st := indexing_status
              (world (snd (index_images_background env image_folder w))) in
  progress st < total st.
Proof.
  intros Hscan Hf. pose proof (run_status image_folder w) as (Ht & _).
  cbv zeta in *. rewrite Ht. clear Ht.
  rewrite index_images_background_eq. cbv zeta.
  set (n := length (scan env image_folder)).
  pose proof (end_job_cases n
    (foldl (iteration env n) (begin_job env n w)
       (enumerate (scan env image_folder)))) as (_ & Hp & _).
  cbv zeta in Hp. rewrite Hp. clear Hp.
  rewrite Hscan, enumerate_snoc, foldl_snoc.
  pose proof (iteration_status n
    (foldl (iteration env n) (begin_job env n w) (enumerate files))
    (length files, f)) as (_ & _ & _ & _ & Hp & _).
  cbv zeta in Hp. rewrite (Hp Hf). clear Hp.
  assert (length files < n) as Hn.
  { unfold n. rewrite Hscan, length_app. simpl. lia. }
  eapply Nat.le_lt_trans; [|exact Hn].
  apply loop_progress_bound; [|simpl; lia].
  apply Forall_forall. intros [j g] Hj%elem_of_enumerate.
  apply lookup_lt_Some in Hj. done.
Qed.

(** What a run stores.  The batches stored concatenate to an initial part
    of the points of the files, to all of them when the run ends normally;
    when the store answers, the run ends normally and the batches have the
    sizes the code intends. *)
Lemma run_store (image_folder : string) (w : World) :
  let run := index_images_background env image_folder w in
  exists batches rest,
    upsert_log (world (snd run)) = upsert_log w ++ batches /\
    collection (world (snd run))
      = store_points (concat batches) (collection w) /\
    concat batches ++ rest
      = records env (enumerate (scan env image_folder)) /\
    (fst run = Ok tt -> rest = []) /\
    (answers_from env (upsert_calls w) ->
     fst run = Ok tt /\
     Forall (fun b => 1 <= length b <= batch_size) batches /\
     Forall (fun b => length b = batch_size)
       (take (length batches - 1) batches)).
Proof.
  rewrite index_images_background_eq. cbv zeta.
  set (n := length (scan env image_folder)).
  set (items := enumerate (scan env image_folder)).
  destruct (loop_store n items (begin_job env n w))
    as (bs & Hl & Hc & Hp & Hu & Hsz).
  set (fr1 := foldl (iteration env n) (begin_job env n w) items) in *.
  change (points (begin_job env n w)) with (@nil (@PointStruct F)) in *.
  change (upsert_log (world (begin_job env n w))) with (upsert_log w) in *.
  change (collection (world (begin_job env n w))) with (collection w) in *.
  change (upsert_calls (world (begin_job env n w)))
    with (upsert_calls w) in *.
  simpl in Hp.
  pose proof (end_job_cases n fr1) as (_ & _ & _ & _ & Hcases).
  cbv zeta in Hcases.
  assert (length (@nil (@PointStruct F)) < batch_size) as Hlt0.
  { simpl. rewrite batch_size_eq. lia. }
  destruct Hcases
    as [(Hok & _ & _ & Hans & bs2 & Hl2 & Hc2 & Hcat & Hne & Hlen2)
       |(Hraise & Hne & Hr & _ & Hl2 & Hc2)].
  - exists (bs ++ bs2), []. rewrite Hl2, Hc2, Hl, Hc.
    rewrite concat_app, store_points_app, Hcat, <- !app_assoc, app_nil_r.
    split; [done|]. split; [done|]. split; [done|]. split; [done|].
    intros Hall. destruct (Hsz Hall Hlt0) as [Hf Hlt].
    split; [done|]. split.
    + apply Forall_app. split.
      * eapply Forall_impl; [exact Hf|]. intros b ->.
        rewrite batch_size_eq. lia.
      * apply Forall_forall. intros b Hb.
        pose proof (proj1 (Forall_forall _ _) Hne b Hb) as Hb1.
        split; [done|].
        destruct bs2 as [|b2 [|b3 bs2]]; simpl in *; try lia.
        { by apply elem_of_nil in Hb. }
        apply list_elem_of_singleton in Hb as ->.
        rewrite app_nil_r in Hcat. subst b2. lia.
    + destruct bs2 as [|b2 [|b3 bs2]]; simpl in *; try lia.
      * rewrite app_nil_r. by apply Forall_take.
      * rewrite length_app. simpl.
        replace (length bs + 1 - 1) with (length bs) by lia.
        by rewrite take_app_length.
  - exists bs, (points fr1). rewrite Hl2, Hc2.
    split; [done|]. split; [done|]. split; [done|]. split.
    + intros Hok. by rewrite Hraise in Hok.
    + intros Hall. exfalso.
      rewrite (Hall (upsert_calls (world fr1))) in Hr; [done|lia].
Qed.

(** *** Embedding failures *)

(** An iteration whose embedding fails counts one error and changes
    nothing else: no point is appended, nothing is sent to the store and
    the status keeps its counter. *)
Lemma loop_body_embed_failure (n idx : nat) (image_file : Path.t)
    (fr : Frame) :
  embed_image env image_file = None ->
  loop_body env n (idx, image_file) fr =
  (Ok tt,
   {| world := world fr; points := points fr; errors := S (errors fr) |}).
Proof.
  intros He. rewrite loop_body_eq.
  by rewrite (record_of_embed_None idx image_file He).
Qed.

(** An iteration that brings the batch to [batch_size] points sends the
    batch to the store and, when the call returns, empties it. *)
Lemma loop_body_flush (n idx : nat) (image_file : Path.t)
    (pt : PointStruct) (fr : Frame) :
  record_of env (idx, image_file) = Some pt ->
  length (points fr ++ [pt]) = batch_size ->
  upsert_raises env (upsert_calls (world fr)) = false ->
  let fr' := snd (loop_body env n (idx, image_file) fr) in
  points fr' = [] /\
  upsert_log (world fr') = upsert_log (world fr) ++ [points fr ++ [pt]].
Proof.
  intros Hr Hlen Hans. rewrite loop_body_eq, Hr. cbn [fst snd].
  unfold after_record. cbv zeta. rewrite Hlen, Nat.leb_refl.
  unfold upsert. rewrite Hans.
  match goal with
  | |- context [finish_record env n idx ?a ?b ?c] =>
      pose proof (finish_record_fields n idx a b c) as (Hp & Hl & _)
  end.
  cbv zeta in *. by rewrite Hp, Hl.
Qed.

(** Errors counted in a run lie between the number of items without a
    point and the number of items. *)
Lemma run_errors (image_folder : string) (w : World) :
  let n := length (scan env image_folder) in
  let e := errors (snd (index_images_background env image_folder w)) in
  n - length (records env (enumerate (scan env image_folder))) <= e <= n.
Proof.
  rewrite index_images_background_eq. cbv zeta.
  set (n := length (scan env image_folder)).
  pose proof (loop_errors n (enumerate (scan env image_folder))
                (begin_job env n w)) as He.
  cbv zeta in *.
  assert (length (enumerate (scan env image_folder)) = n) as Hn.
  { unfold enumerate, n. rewrite length_zip_with_r_eq; [done|].
    by rewrite length_seq. }
  rewrite Hn in He.
  change (errors (begin_job env n w)) with 0 in He.
  pose proof (end_job_cases n
    (foldl (iteration env n) (begin_job env n w)
       (enumerate (scan env image_folder)))) as (-> & _).
  lia.
Qed.

(** *** Positions of the stored points *)

Lemma records_ids_filter (items : list (nat * Path.t)) :
  id <$> records env items
  = (filter (fun item => is_Some (record_of env item)) items).*1.
Proof.
  induction items as [|item items IH]; [done|].
  rewrite records_cons, fmap_app, IH, filter_cons.
  unfold records at 1. cbn [omap list_omap].
  destruct (record_of env item) as [p|] eqn:Hr.
  - rewrite decide_True by (by eexists). simpl.
    by rewrite (record_of_id _ _ Hr).
  - rewrite decide_False by (by intros [? ?]). done.
Qed.

Lemma filter_all {A} (P : A -> Prop) `{!forall x, Decision (P x)}
    (l : list A) :
  Forall P l -> filter P l = l.
Proof.
  induction 1 as [|x l Hx Hl IH]; [done|].
  rewrite filter_cons, decide_True by done. by rewrite IH.
Qed.

Lemma record_at_position (i : nat) (f : Path.t) (v : list F) :
  Path.name f <> "" ->
  embed_image env f = Some v ->
  exists p, record_of env (i, f) = Some p /\ id p = i /\ vector p = v.
Proof.
  intros Hn Hv. unfold record_of, Path.with_suffix. simpl.
  rewrite decide_False by done. rewrite Hv. by eexists.
Qed.

Lemma stored_ids_NoDup (files : list Path.t)
    (stored rest : list (@PointStruct F)) :
  stored ++ rest = records env (enumerate files) ->
  NoDup (id <$> stored) /\
  id <$> stored `sublist_of` seq 0 (length files) /\
  forall p, p ∈ stored -> p ∈ records env (enumerate files).
Proof.
  intros Heq.
  pose proof (records_ids_NoDup files) as Hnd.
  pose proof (records_ids_positions files) as Hsub.
  rewrite <- Heq, fmap_app in Hnd, Hsub.
  apply NoDup_app in Hnd as (Hnd & _ & _).
  split; [done|]. split.
  - etrans; [|exact Hsub]. by apply sublist_inserts_r.
  - intros p Hp. rewrite <- Heq. apply elem_of_app. by left.
Qed.

(** *** C8 *)


(** *** C10 *)

(** C10. Let [stored] be the points a run stores.  The id of each is the
    position, counted from zero, of its file in the scanned sequence; the
    ids are pairwise distinct and form a subsequence of 0, 1, ..., n-1;
    the position of a file whose embedding fails is not among them.  After
    the run the collection holds, under each of these ids, the point of
    this run, whatever it held before, and is unchanged elsewhere.  When
    the run ends normally, every file that has a name and whose embedding
    succeeds has its point stored under its position, holding that
    embedding; the ids stored are exactly the positions of the files that
    yield a point, hence 0, 1, ..., n-1 when every file does. *)
Theorem ids_are_scan_positions (image_folder : string) (w : World) :
  let files := scan env image_folder in
  let run := index_images_background env image_folder w in
  let fr := snd run in
  let stored :=
    concat (drop (length (upsert_log w)) (upsert_log (world fr))) in
  (forall p, p ∈ stored ->
     exists f, files !! id p = Some f /\
               record_of env (id p, f) = Some p /\
               embed_image env f = Some (vector p) /\
               payload p !! "filename" = Some (VStr (Path.name f))) /\
  id <$> stored `sublist_of` seq 0 (length files) /\
  NoDup (id <$> stored) /\
  (forall i f, files !! i = Some f -> embed_image env f = None ->
     i ∉ id <$> stored) /\
  (forall p, p ∈ stored -> collection (world fr) !! id p = Some p) /\
  (forall i, i ∉ id <$> stored ->
     collection (world fr) !! i = collection w !! i) /\
  (fst run = Ok tt ->
   (forall i f v, files !! i = Some f -> Path.name f <> "" ->
      embed_image env f = Some v ->
      exists p, p ∈ stored /\ id p = i /\ vector p = v /\
                collection (world fr) !! i = Some p) /\
   id <$> stored
     = (filter (fun item => is_Some (record_of env item))
          (enumerate files)).*1 /\
   ((forall i f, files !! i = Some f -> is_Some (record_of env (i, f))) ->
    id <$> stored = seq 0 (length files))).
Proof.
  cbv zeta.
  destruct (run_store image_folder w)
    as (bs & rest & Hl & Hc & Hcat & Hok & _).
  rewrite Hl, drop_app_length, Hc.
  destruct (stored_ids_NoDup _ _ _ Hcat) as (Hnd & Hsub & Hin).
  assert (Hpos : forall p,
    p ∈ records env (enumerate (scan env image_folder)) ->
    exists f, scan env image_folder !! id p = Some f /\
              record_of env (id p, f) = Some p).
  { intros p ([j f] & Hj & Hp)%elem_of_records.
    apply elem_of_enumerate in Hj.
    pose proof (record_of_id _ _ Hp) as Hid. simpl in Hid. subst j.
    by exists f. }
  split; [|split; [done|split; [done|split; [|split; [|split]]]]].
  - intros p Hp. destruct (Hpos p (Hin p Hp)) as (f & Hf & Hrec).
    exists f. split; [done|]. split; [done|].
    apply record_of_fields in Hrec. done.
  - intros i f Hf He (p & -> & Hp)%list_elem_of_fmap.
    destruct (Hpos p (Hin p Hp)) as (g & Hg & Hrec).
    rewrite Hf in Hg. injection Hg as <-.
    by rewrite (record_of_embed_None (id p) f He) in Hrec.
  - intros p Hp. by apply store_points_present.
  - intros i Hi. by apply store_points_absent.
  - intros Hrun. rewrite (Hok Hrun), app_nil_r in Hcat.
    split; [|split].
    + intros i f v Hf Hname Hv.
      destruct (record_at_position i f v Hname Hv) as (p & Hp & Hid & Hvec).
      assert (p ∈ concat bs) as Hstored.
      { rewrite Hcat. apply elem_of_records. exists (i, f).
        split; [by apply elem_of_enumerate|done]. }
      exists p. split; [done|]. split; [done|]. split; [done|].
      rewrite <- Hid. by apply store_points_present.
    + rewrite Hcat. apply records_ids_filter.
    + intros Hall. rewrite Hcat, records_ids_filter, filter_all.
      * apply enumerate_fst.
      * apply Forall_forall. intros [j f] Hj%elem_of_enumerate.
        by apply Hall.
Qed.

(** *** C4 *)

(** C4, as the code has it.  A start request made while no job is running,
    for a folder that exists, is answered with status 200 and starts the
    thread on that folder.  Before it returns, the status is replaced by:
    indexing, 0 processed, 0 in total, message "Starting indexing...", no
    start time and no estimate; nothing else in the world changes.  The
    start time is set by the thread, after the scan, to the clock reading
    taken then, and is still that reading when the run ends. *)
Theorem start_indexing_accepted (req : StartRequest) (w : World) :
  is_indexing (indexing_status w) = false ->
  path_exists env (default "./scraped_images" (folder req)) = true ->
  let image_folder := default "./scraped_images" (folder req) in
  let w' := (start_indexing env req w).1.2 in
  start_indexing env req w =
    ({| code := 200;
        body := StartedBody "Indexing started" (indexing_status w') |},
     w', Some image_folder) /\
  indexing_status w' =
    {| is_indexing := true; progress := 0; total := 0;
       message := "Starting indexing..."; start_time := None;
       estimated_time := None |} /\
  collection w' = collection w /\
  upsert_log w' = upsert_log w /\
  clock_reads w' = clock_reads w /\
  start_time (indexing_status
    (world (snd (index_images_background env image_folder w'))))
  = Some (clock env (clock_reads w)).
Proof.
  intros Hidle Hex. cbv zeta. unfold start_indexing.
  rewrite Hidle, Hex. cbn [negb fst snd].
  repeat split.
  pose proof (run_status (default "./scraped_images" (folder req))
                (set_status reset_status w)) as (_ & _ & Hs & _).
  exact Hs.
Qed.

End Job.

(** ** Concrete runs *)

(** A run over [imgs] followed by a run over [other]: the point stored
    under id 0 by the first run is replaced by the second run's. *)
Example second_run_overwrites :
  let w1 := world (snd (index_images_background Demo.env "imgs"
                          (Demo.started "imgs"))) in
  let w2 := world (snd (index_images_background Demo.env "other" w1)) in
  (payload <$> collection w1 !! 0) ≫= (.!! "filename")
    = Some (VStr "c.jpg") /\
  (payload <$> collection w2 !! 0) ≫= (.!! "filename")
    = Some (VStr "z.png") /\
  (payload <$> collection w2 !! 2) ≫= (.!! "filename")
    = Some (VStr "a.jpg").
Proof. vm_compute. done. Qed.

(** With a clock that does not advance the estimator divides by zero; the
    exception is caught by the loop, which counts an error for an item
    whose point is nevertheless stored. *)
Example frozen_clock_run :
  errors (snd (index_images_background Demo.frozen "other"
                 (Demo.started "other"))) = 1 /\
  length <$> upsert_log
    (world (snd (index_images_background Demo.frozen "other"
                   (Demo.started "other")))) = [1].
Proof. vm_compute. done. Qed.

(** *** C1 *)

(** C1 at a folder whose only image does not decode: the run completes
    with one item found, one error, nothing stored, and a processed count
    of 0, below the total of 1. *)
Theorem completed_run_counter_short :
  let run := index_images_background Demo.env "broken"
               (Demo.started "broken") in
  let st := indexing_status (world (snd run)) in
  fst run = Ok tt /\
  is_indexing st = false /\
  total st = 1 /\
  progress st = 0 /\
  errors (snd run) = 1 /\
  upsert_log (world (snd run)) = [] /\
  message st = "✅ Completed! Indexed 0 images (1 errors)".
Proof. vm_compute. done. Qed.

(** *** C2 *)

Lemma start_indexing_while_running_witness :
  is_indexing (indexing_status Demo.running) = true /\
  start_indexing Demo.env {| folder := Some "imgs" |} Demo.running =
  ({| code := 400; body := ErrorBody "Indexing already in progress" |},
   Demo.running, None).
Proof.
  split; [reflexivity|].
  apply start_indexing_while_running. reflexivity.
Defined.

(** *** C3 *)

(** While a job is running, a request for a missing folder is answered
    with 400, not 404. *)
Lemma start_indexing_missing_folder_conflict :
  path_exists Demo.env "nowhere" = false /\
  code (start_indexing Demo.env {| folder := Some "nowhere" |}
          Demo.running).1.1 <> 404.
Proof. split; [reflexivity|]. vm_compute. discriminate. Qed.

Lemma start_indexing_missing_folder_witness :
  path_exists Demo.env "nowhere" = false /\
  start_indexing Demo.env {| folder := Some "nowhere" |} Demo.idle =
  ({| code := 404; body := ErrorBody "Folder not found: nowhere" |},
   Demo.idle, None).
Proof.
  split; [reflexivity|].
  apply (start_indexing_missing_folder Demo.env
           {| folder := Some "nowhere" |} Demo.idle).
  reflexivity.
Defined.

(** *** C4 *)

(** The status left by an accepted request has no start time. *)
Lemma start_indexing_start_time_absent :
  code (start_indexing Demo.env {| folder := Some "imgs" |} Demo.idle).1.1
    = 200 /\
  ~ exists t,
      start_time (indexing_status
        (start_indexing Demo.env {| folder := Some "imgs" |} Demo.idle).1.2)
      = Some t.
Proof.
  split; [reflexivity|]. intros [t Ht]. vm_compute in Ht. discriminate.
Qed.

Lemma start_indexing_accepted_witness :
  indexing_status (Demo.started "imgs") =
    {| is_indexing := true; progress := 0; total := 0;
       message := "Starting indexing..."; start_time := None;
       estimated_time := None |} /\
  start_time (indexing_status
    (world (snd (index_images_background Demo.env "imgs"
                   (Demo.started "imgs")))))
  = Some (clock Demo.env 0).
Proof.
  pose proof (start_indexing_accepted Demo.env
                {| folder := Some "imgs" |} Demo.idle
                eq_refl eq_refl) as (_ & Hst & _ & _ & _ & Ht).
  split; [exact Hst|exact Ht].
Defined.

(** *** C5 *)

(** A file listed under two names, its own and a symbolic link's, is
    catalogued twice: paths are compared as returned by the searches,
    not resolved. *)
Lemma scan_lists_linked_file_twice :
  ["links"; "l.jpg"] ∈ direct_matches Demo2.linked "links" /\
  ["links"; "l.jpg"] ∈ recursive_matches Demo2.linked "links" /\
  Demo2.resolve ["links"; "l.jpg"] = Demo2.resolve ["links"; "a.jpg"] /\
  length (filter (fun y => Demo2.resolve y = ["links"; "a.jpg"])
            (scan Demo2.linked "links")) = 2.
Proof.
  split; [apply (bool_decide_unpack _); vm_compute; exact I|].
  split; [apply (bool_decide_unpack _); vm_compute; exact I|].
  split; [reflexivity|]. vm_compute. reflexivity.
Qed.

Lemma scan_direct_and_recursive_once_witness :
  length (filter (fun y => y = ["imgs"; "a.jpg"])
            (found_files Demo.env "imgs")) = 2 /\
  length (filter (fun y => y = ["imgs"; "a.jpg"])
            (scan Demo.env "imgs")) = 1.
Proof.
  split; [vm_compute; reflexivity|].
  apply (scan_direct_and_recursive_once Demo.env "imgs" ["imgs"; "a.jpg"]).
  - apply (bool_decide_unpack _). vm_compute. exact I.
  - apply (bool_decide_unpack _). vm_compute. exact I.
Defined.

(** *** C6 *)

Lemma read_description_sidecar_witness :
  Path.with_suffix ["imgs"; "a.jpg"] ".txt" = Some ["imgs"; "a.txt"] /\
  read_description Demo.env ["imgs"; "a.txt"] = of_string "a red sedan" /\
  Path.with_suffix ["imgs"; "sub"; "c.jpg"] ".txt"
    = Some ["imgs"; "sub"; "c.txt"] /\
  read_description Demo.env ["imgs"; "sub"; "c.txt"]
    = of_string "No description".
Proof.
  split; [reflexivity|]. split.
  - apply (proj2 (proj2 (proj2 (read_description_sidecar Demo.env
             ["imgs"; "a.jpg"] ["imgs"; "a.txt"] eq_refl)))
             (of_string "  a red sedan ")).
    + reflexivity.
    + vm_compute. discriminate.
  - split; [reflexivity|].
    apply (proj1 (proj2 (read_description_sidecar Demo.env
             ["imgs"; "sub"; "c.jpg"] ["imgs"; "sub"; "c.txt"] eq_refl))).
    reflexivity.
Defined.

(** *** C7 *)

Lemma estimate_time_remaining_cases_witness :
  fst (estimate_time_remaining Demo.env 10 40 (Some 0%Q) Demo.at_ten_seconds)
    = Ok "30s remaining" /\
  fst (estimate_time_remaining Demo.env 10 100 (Some 0%Q) Demo.at_ten_seconds)
    = Ok "1m remaining" /\
  fst (estimate_time_remaining Demo.env 10 100000 (Some 0%Q) Demo.at_ten_seconds)
    = Ok "27h 46m remaining".
Proof.
  split; [|split].
  - apply (proj1 (proj2 (estimate_time_remaining_cases Demo.env 40)
             10%Z 0%Q Demo.at_ten_seconds 1%Q 30%Q
             ltac:(discriminate) eq_refl eq_refl) eq_refl 30%Z eq_refl).
  - apply (proj1 (proj2 (proj2 (estimate_time_remaining_cases Demo.env 100)
             10%Z 0%Q Demo.at_ten_seconds 1%Q 90%Q
             ltac:(discriminate) eq_refl eq_refl))
             eq_refl eq_refl (3 # 2)%Q 1%Z eq_refl eq_refl).
  - apply (proj2 (proj2 (proj2 (estimate_time_remaining_cases Demo.env 100000)
             10%Z 0%Q Demo.at_ten_seconds 1%Q 99990%Q
             ltac:(discriminate) eq_refl eq_refl))
             eq_refl eq_refl (1111 # 40)%Q 27%Z 2790%Q (93 # 2)%Q 46%Z
             eq_refl eq_refl eq_refl eq_refl eq_refl).
Defined.

(** *** C8 *)



(** *** C9 *)

Lemma search_empty_query_witness :
  search Demo.env {| query := Some ""; top_k := Some 5%Z |} Demo.idle =
  ({| code := 400; body := ErrorBody "Query is required" |}, []).
Proof. apply search_empty_query. reflexivity. Defined.

(** *** C10 *)

(** In the run over [imgs] the file at position 1 does not decode: no
    stored point has id 1, and id 2 holds the point of the file at
    position 2. *)
Lemma ids_are_scan_positions_witness :
  scan Demo.env "imgs" !! 1 = Some ["imgs"; "b.jpg"] /\
  embed_image Demo.env ["imgs"; "b.jpg"] = None /\
  1 ∉ (id <$> concat
         (drop (length (upsert_log (Demo.started "imgs")))
            (upsert_log
               (world (snd (index_images_background Demo.env "imgs"
                              (Demo.started "imgs"))))))) /\
  fst (index_images_background Demo.env "imgs" (Demo.started "imgs"))
    = Ok tt /\
  scan Demo.env "imgs" !! 2 = Some ["imgs"; "a.jpg"] /\
  embed_image Demo.env ["imgs"; "a.jpg"] = Some [1%Q] /\
  exists p,
    p ∈ concat
          (drop (length (upsert_log (Demo.started "imgs")))
             (upsert_log
                (world (snd (index_images_background Demo.env "imgs"
                               (Demo.started "imgs")))))) /\
    id p = 2 /\ vector p = [1%Q] /\
    collection (world (snd (index_images_background Demo.env "imgs"
                              (Demo.started "imgs")))) !! 2 = Some p.
Proof.
  split; [reflexivity|]. split; [reflexivity|]. split.
  { apply (proj1 (proj2 (proj2 (proj2
             (ids_are_scan_positions Demo.env "imgs"
                (Demo.started "imgs")))))
             1 ["imgs"; "b.jpg"]); reflexivity. }
  split; [reflexivity|]. split; [reflexivity|]. split; [reflexivity|].
  assert (fst (index_images_background Demo.env "imgs"
                 (Demo.started "imgs")) = Ok tt) as Hok by reflexivity.
  destruct (ids_are_scan_positions Demo.env "imgs" (Demo.started "imgs"))
    as (_ & _ & _ & _ & _ & _ & Hcomplete).
  destruct (Hcomplete Hok) as (Hstored & _).
  apply (Hstored 2 ["imgs"; "a.jpg"] [1%Q]).
  - reflexivity.
  - discriminate.
  - reflexivity.
Defined.

(** * Further properties *)

(** ** Descriptions are trimmed *)

Lemma lstrip_head (s : text) (c : N) (t : text) :
  lstrip s = c :: t -> isspace c = false.
Proof.
  induction s as [|a s IH]; simpl; [done|].
  destruct (isspace a) eqn:Ha; [exact IH|].
  by intros [= <- _].
Qed.

Lemma lstrip_keeps (c : N) (t : text) :
  isspace c = false -> lstrip (c :: t) = c :: t.
Proof. intros Hc. simpl. by rewrite Hc. Qed.

Lemma lstrip_lstrip (s : text) : lstrip (lstrip s) = lstrip s.
Proof.
  destruct (lstrip s) as [|c t] eqn:Hs; [done|].
  apply lstrip_keeps. by eapply lstrip_head.
Qed.

Lemma strip_head (s : text) (c : N) (t : text) :
  strip s = c :: t -> isspace c = false.
Proof.
  unfold strip, rstrip. intros Hs.
  destruct (lstrip_suffix (reverse (lstrip s))) as (pre & Heq & _).
  apply (f_equal reverse) in Heq.
  rewrite reverse_involutive, reverse_app, Hs in Heq.
  simpl in Heq. by eapply lstrip_head.
Qed.

Lemma strip_last (s : text) (c : N) :
  last (strip s) = Some c -> isspace c = false.
Proof.
  unfold strip, rstrip. rewrite last_reverse.
  destruct (lstrip (reverse (lstrip s))) as [|a t] eqn:Hs; [done|].
  intros [= ->]. by eapply lstrip_head.
Qed.

Section Descriptions.

Context {F : Type} `{PyFloat F}.
Variable env : Env (F := F).

(** X1. Whatever the sidecar file holds, the description returned is not
    empty and neither begins nor ends with a white-space character. *)
Theorem read_description_trimmed (txt_path : Path.t) :
  exists c1 c2,
    head (read_description env txt_path) = Some c1 /\
    last (read_description env txt_path) = Some c2 /\
    isspace c1 = false /\ isspace c2 = false.
Proof.
  unfold read_description.
  destruct (read_text env txt_path) as [raw|];
    [|by exists 78%N, 110%N].
  destruct (strip raw) as [|c t] eqn:Hs; [by exists 78%N, 110%N|].
  cbn [is_empty].
  destruct (last (c :: t)) as [c2|] eqn:Hl.
  - exists c, c2. split; [done|]. split; [done|]. split.
    + by eapply strip_head.
    + apply (strip_last raw). by rewrite Hs.
  - by apply last_None in Hl.
Qed.

End Descriptions.

(** ** The sidecar of an image *)

Lemma rfind_dot_app (l r : list ascii) :
  Path.rfind_dot r = None ->
  Path.rfind_dot (l ++ "."%char :: r) = Some (length l).
Proof.
  intros Hr. induction l as [|a l IH]; simpl.
  - by rewrite Hr.
  - by rewrite IH.
Qed.

Lemma list_ascii_of_string_app (a b : string) :
  String.list_ascii_of_string (a +:+ b)
  = String.list_ascii_of_string a ++ String.list_ascii_of_string b.
Proof. induction a as [|c a IH]; simpl; [done|]. by rewrite IH. Qed.

Lemma stem_of_extension (base ext : string) :
  base <> "" -> ext <> "" ->
  Path.rfind_dot (String.list_ascii_of_string ext) = None ->
  Path.stem (base +:+ "." +:+ ext) = base.
Proof.
  intros Hb He Hdot. unfold Path.stem.
  rewrite list_ascii_of_string_app. simpl.
  change ("" +:+ ext) with ext.
  rewrite rfind_dot_app by done.
  rewrite length_app. simpl.
  assert (0 < length (String.list_ascii_of_string base)) as Hlb.
  { destruct base; [done|]. simpl. lia. }
  assert (0 < length (String.list_ascii_of_string ext)) as Hle.
  { destruct ext; [done|]. simpl. lia. }
  replace (0 <? _)%nat with true by (symmetry; apply Nat.ltb_lt; lia).
  replace (_ <? _)%nat with true by (symmetry; apply Nat.ltb_lt; lia).
  simpl. rewrite take_app_length.
  apply String.string_of_list_ascii_of_string.
Qed.

(** X2. For an image named [base.jpg], [base.jpeg] or [base.png], where
    [base] is not empty and does not begin with a dot, the description is
    looked for in [base.txt] in the same directory. *)
Theorem sidecar_of_image (dir : Path.t) (c : ascii) (rest ext : string) :
  c <> "."%char ->
  ext ∈ ["jpg"; "jpeg"; "png"] ->
  Path.with_suffix (dir ++ [String c rest +:+ "." +:+ ext]) ".txt"
  = Some (dir ++ [String c rest +:+ ".txt"]).
Proof.
  intros _ Hext. unfold Path.with_suffix.
  rewrite name_snoc, parent_snoc.
  rewrite decide_False by done.
  rewrite stem_of_extension; [done|done| |].
  - set_unfold. destruct Hext as [->|[->|[->|[]]]]; done.
  - set_unfold. destruct Hext as [->|[->|[->|[]]]]; reflexivity.
Qed.

Lemma sidecar_of_image_witness :
  Path.with_suffix ["photos"; "1234.jpg"] ".txt"
  = Some ["photos"; "1234.txt"].
Proof.
  apply (sidecar_of_image ["photos"] "1"%char "234" "jpg").
  - discriminate.
  - apply (bool_decide_unpack _). vm_compute. exact I.
Defined.

(** ** Searching *)

Section Searching.

Context {F : Type} `{PyFloat F}.
Variable env : Env (F := F).

Lemma format_result_shaped (r : ScoredPoint) (tr : list (@Call F)) :
  has_keys (sp_payload r) ->
  exists h, format_result r tr = (Ok h, tr) /\ shaped r h.
Proof.
  intros [[fn Hfn] [pt Hpt]]. unfold format_result, bind.
  rewrite Hfn, Hpt. simpl. eexists. split; [reflexivity|].
  unfold shaped. simpl. by rewrite Hfn, Hpt.
Qed.

Lemma format_results_shaped (rs : list (@ScoredPoint F))
    (tr : list (@Call F)) :
  Forall (fun r => has_keys (sp_payload r)) rs ->
  exists hs, format_results rs tr = (Ok hs, tr) /\ Forall2 shaped rs hs.
Proof.
  induction 1 as [|r rs Hr Hrs (hs & Hhs & Hsh)]; simpl.
  - exists []. split; [done|]. constructor.
  - destruct (format_result_shaped r tr Hr) as (h & Hh & Hs).
    exists (h :: hs). unfold bind at 1. rewrite Hh.
    unfold bind at 1. rewrite Hhs. split; [done|]. by constructor.
Qed.

Lemma format_results_KeyError (rs : list (@ScoredPoint F))
    (tr : list (@Call F)) :
  Exists (fun r => ~ has_keys (sp_payload r)) rs ->
  format_results rs tr = (Raise KeyError, tr).
Proof.
  induction rs as [|r rs IH]; intros Hex; [by apply Exists_nil in Hex|].
  simpl. unfold bind at 1, format_result. unfold bind at 1.
  destruct (sp_payload r !! "filename") as [fn|] eqn:Hfn; simpl; [|done].
  unfold bind at 1.
  destruct (sp_payload r !! "path") as [pt|] eqn:Hpt; simpl; [|done].
  apply Exists_cons in Hex as [Hr|Hrs].
  - exfalso. apply Hr. split; by eexists.
  - unfold bind. by rewrite (IH Hrs).
Qed.

(** X3. A search with a non-empty query, for which the encoder and the
    store answer and every hit carries a file name and a path, is answered
    with status 200.  The encoder is called once, then the store once with
    the encoded query and the requested limit (12 when none is given).
    The results are the store's hits in the store's order, each with its
    score, file name and path, with "No description" and an empty folder
    where the payload has none; the count is the number of hits. *)
Theorem search_answers (req : SearchRequest) (w : World) (v : list F)
    (rs : list ScoredPoint) :
  default "" (query req) <> "" ->
  clip_text env (default "" (query req)) = Some v ->
  knn env (collection w) v (default 12%Z (top_k req)) = Some rs ->
  Forall (fun r => has_keys (sp_payload r)) rs ->
  exists hs,
    search env req w =
    ({| code := 200;
        body := ResultsBody (default "" (query req)) hs (length rs) |},
     [EmbedTextCall (default "" (query req));
      StoreSearchCall v (default 12%Z (top_k req))]) /\
    Forall2 shaped rs hs.
Proof.
  intros Hq Hv Hrs Hk. unfold search. rewrite decide_False by done.
  unfold bind at 1, log_call, modify. unfold bind at 1.
  rewrite Hv. simpl. unfold bind at 1. simpl. unfold bind at 1.
  rewrite Hrs. simpl.
  destruct (format_results_shaped rs
    [EmbedTextCall (default "" (query req));
     StoreSearchCall v (default 12%Z (top_k req))] Hk) as (hs & Hhs & Hsh).
  exists hs. unfold bind. rewrite Hhs. simpl.
  by rewrite (Forall2_length _ _ _ Hsh).
Qed.

(** X4. A search with a non-empty query is answered with status 500 when
    the encoder raises, in which case the store is not called; when the
    store raises; and when some hit lacks a file name or a path, in which
    case no result at all is returned. *)
Theorem search_fails (req : SearchRequest) (w : World) :
  default "" (query req) <> "" ->
  let q := default "" (query req) in
  let k := default 12%Z (top_k req) in
  (clip_text env q = None ->
   search env req w =
   ({| code := 500; body := ExceptionBody ExternalError |},
    [EmbedTextCall q])) /\
  (forall v, clip_text env q = Some v ->
     knn env (collection w) v k = None ->
     search env req w =
     ({| code := 500; body := ExceptionBody ExternalError |},
      [EmbedTextCall q; StoreSearchCall v k])) /\
  (forall v rs, clip_text env q = Some v ->
     knn env (collection w) v k = Some rs ->
     Exists (fun r => ~ has_keys (sp_payload r)) rs ->
     search env req w =
     ({| code := 500; body := ExceptionBody KeyError |},
      [EmbedTextCall q; StoreSearchCall v k])).
Proof.
  intros Hq q k. subst q k. unfold search. rewrite decide_False by done.
  split; [|split].
  - intros Hv. unfold bind at 1, log_call, modify. unfold bind at 1.
    by rewrite Hv.
  - intros v Hv Hrs. unfold bind at 1, log_call, modify. unfold bind at 1.
    rewrite Hv. simpl. unfold bind at 1. simpl. unfold bind at 1.
    by rewrite Hrs.
  - intros v rs Hv Hrs Hex.
    unfold bind at 1, log_call, modify. unfold bind at 1.
    rewrite Hv. simpl. unfold bind at 1. simpl. unfold bind at 1.
    rewrite Hrs. simpl. unfold bind.
    by rewrite (format_results_KeyError rs _ Hex).
Qed.

End Searching.

(** ** The indexing job, continued *)

Section JobMore.

Context {F : Type} `{PyFloat F}.
Variable env : Env (F := F).

Lemma take_enumerate_positions {A} (files : list A) (k : nat) :
  Forall (fun item => item.1 < Nat.min k (length files))
    (take k (enumerate files)).
Proof.
  apply Forall_lookup. intros i [j f] [Hl Hi]%lookup_take_Some.
  apply enumerate_lookup in Hl as [-> Hf].
  apply lookup_lt_Some in Hf. simpl. lia.
Qed.

(** X5. Between any two iterations of the loop the status is consistent:
    the total is still the number of files, the processed count has not
    passed the number of files visited so far nor the total, and the
    running flag and the start time are as the loop found them.  No
    iteration raises. *)
Theorem status_between_items (n k : nat) (files : list Path.t) (fr : Frame) :
  n = length files ->
  total (indexing_status (world fr)) = n ->
  progress (indexing_status (world fr)) = 0 ->
  let r := for_each (loop_body env n) (take k (enumerate files)) fr in
  let st' := indexing_status (world (snd r)) in
  fst r = Ok tt /\
  total st' = n /\
  progress st' <= k /\ progress st' <= total st' /\
  is_indexing st' = is_indexing (indexing_status (world fr)) /\
  start_time st' = start_time (indexing_status (world fr)).
Proof.
  intros Hn Ht Hp. cbv zeta. rewrite for_each_loop_body. cbn [fst snd].
  pose proof (loop_status env n (take k (enumerate files)) fr)
    as (Ht' & Hs' & Hi').
  pose proof (loop_progress_bound env n (Nat.min k (length files))
    (take k (enumerate files)) fr (take_enumerate_positions files k)) as Hb.
  cbv zeta in *. rewrite Ht', Hs', Hi', Ht.
  specialize (Hb ltac:(lia)).
  repeat split; try done; lia.
Qed.

(** The loop calls the store only with a batch that has reached
    [batch_size]. *)
Lemma after_record_sent (n idx : nat) (pt : PointStruct) (fr : Frame) :
  exists bs,
    upsert_log (world (after_record env n idx pt fr))
      = upsert_log (world fr) ++ bs /\
    Forall (fun b => batch_size <= length b) bs.
Proof.
  unfold after_record. cbv zeta.
  destruct (Nat.leb batch_size (length (points fr ++ [pt]))) eqn:Hfull.
  - apply Nat.leb_le in Hfull. unfold upsert.
    destruct (upsert_raises env (upsert_calls (world fr))).
    + exists []. simpl. by rewrite app_nil_r.
    + match goal with
      | |- context [finish_record env n idx ?a ?b ?c] =>
          pose proof (finish_record_fields env n idx a b c) as (_ & Hl & _)
      end.
      cbv zeta in Hl. simpl in Hl.
      exists [points fr ++ [pt]]. rewrite Hl.
      split; [done|]. by apply Forall_singleton.
  - pose proof (finish_record_fields env n idx (points fr ++ [pt])
      (errors fr) (world fr)) as (_ & Hl & _).
    cbv zeta in Hl. exists []. rewrite Hl. simpl. by rewrite app_nil_r.
Qed.

Lemma loop_sent (n : nat) (items : list (nat * Path.t)) (fr : Frame) :
  exists bs,
    upsert_log (world (foldl (iteration env n) fr items))
      = upsert_log (world fr) ++ bs /\
    Forall (fun b => batch_size <= length b) bs.
Proof.
  revert fr. induction items as [|item items IH]; intros fr.
  - exists []. simpl. by rewrite app_nil_r.
  - cbn [foldl].
    destruct (IH (iteration env n fr item)) as (bs2 & Hl2 & Hf2).
    assert (exists bs1,
      upsert_log (world (iteration env n fr item))
        = upsert_log (world fr) ++ bs1 /\
      Forall (fun b => batch_size <= length b) bs1) as (bs1 & Hl1 & Hf1).
    { unfold iteration. destruct (record_of env item).
      - apply after_record_sent.
      - exists []. simpl. by rewrite app_nil_r. }
    exists (bs1 ++ bs2). rewrite Hl2, Hl1, <- app_assoc.
    split; [done|]. by apply Forall_app.
Qed.

(** X6. Between any two iterations no point is lost, whatever the store
    does: the points of the items visited so far are those the store has
    taken, in order, followed by those waiting in the batch.  Every batch
    the store has taken held at least 100 points.  When the store answers
    every call and fewer than 100 points were waiting at the start, every
    batch taken held exactly 100 and fewer than 100 are waiting. *)
Theorem points_between_items (n : nat) (items : list (nat * Path.t))
    (fr : Frame) :
  let fr' := snd (for_each (loop_body env n) items fr) in
  exists batches,
    upsert_log (world fr') = upsert_log (world fr) ++ batches /\
    collection (world fr')
      = store_points (concat batches) (collection (world fr)) /\
    concat batches ++ points fr' = points fr ++ records env items /\
    Forall (fun b => 100 <= length b) batches /\
    (answers_from env (upsert_calls (world fr)) ->
     length (points fr) < 100 ->
     Forall (fun b => length b = 100) batches /\
     length (points fr') < 100).
Proof.
  cbv zeta. rewrite for_each_loop_body. cbn [snd].
  rewrite <- batch_size_eq.
  destruct (loop_store env n items fr) as (bs & Hl & Hc & Hp & _ & Hsz).
  destruct (loop_sent n items fr) as (bs' & Hl' & Hf').
  rewrite Hl in Hl'. apply app_inv_head in Hl'. subst bs'.
  exists bs. split; [done|]. split; [done|]. split; [done|].
  split; [done|]. exact Hsz.
Qed.

(** X7. When the store answers every call, the run ends normally and the
    processed count is then one more than the position of the last file
    that yielded a point, and 0 when no file did: files that fail after
    the last success are not counted. *)
Theorem final_progress_is_last_stored (image_folder : string) (w : World) :
  answers_from env (upsert_calls w) ->
  let run := index_images_background env image_folder w in
  fst run = Ok tt /\
  progress (indexing_status (world (snd run)))
  = match last (records env (enumerate (scan env image_folder))) with
    | Some p => id p + 1
    | None => 0
    end.
Proof.
  intros Hans. cbv zeta. split.
  { destruct (run_store env image_folder w) as (bs & rest & _ & _ & _ & _ & Hok).
    by destruct (Hok Hans). }
  rewrite index_images_background_eq. cbv zeta.
  set (n := length (scan env image_folder)).
  pose proof (end_job_cases env n
    (foldl (iteration env n) (begin_job env n w)
       (enumerate (scan env image_folder)))) as (_ & Hp & _).
  cbv zeta in Hp. rewrite Hp, loop_progress_last; [done|].
  exact Hans.
Qed.

(** X8. The error count of a run is at most the number of files and at
    least the number of files that yield no point.  When the run ends
    normally, the closing message reads "Completed! Indexed s images (e
    errors)", where [e] is the error count and [s] is the number of files
    less [e], which never exceeds the number of points stored; the run
    ends normally when the store answers every call.  When the call that
    sends the last points raises, the run ends with that exception and
    the closing message is never written: the message is the one the loop
    left. *)
Theorem completion_message (image_folder : string) (w : World) :
  let run := index_images_background env image_folder w in
  let fr := snd run in
  let n := length (scan env image_folder) in
  let files := enumerate (scan env image_folder) in
  let stored :=
    concat (drop (length (upsert_log w)) (upsert_log (world fr))) in
  errors fr <= n /\
  (Z.of_nat n - Z.of_nat (errors fr)
     <= Z.of_nat (length (records env files)))%Z /\
  (fst run = Ok tt ->
   message (indexing_status (world fr))
   = "✅ Completed! Indexed " +:+
     pretty (Z.of_nat n - Z.of_nat (errors fr))%Z +:+ " images (" +:+
     pretty (errors fr) +:+ " errors)" /\
   stored = records env files) /\
  (fst run <> Ok tt ->
   fst run = Raise ExternalError /\
   message (indexing_status (world fr))
   = message (indexing_status
       (world (foldl (iteration env n) (begin_job env n w) files)))) /\
  (answers_from env (upsert_calls w) -> fst run = Ok tt).
Proof.
  cbv zeta. pose proof (run_errors env image_folder w) as He.
  cbv zeta in He. split; [lia|]. split; [lia|].
  destruct (run_store env image_folder w)
    as (bs & rest & Hl & _ & Hcat & Hrest & Hans).
  rewrite Hl, drop_app_length.
  rewrite index_images_background_eq in *. cbv zeta in *.
  set (n := length (scan env image_folder)) in *.
  set (fr1 := foldl (iteration env n) (begin_job env n w)
                (enumerate (scan env image_folder))) in *.
  pose proof (end_job_cases env n fr1) as (Herr & _ & _ & _ & Hcases).
  cbv zeta in Hcases.
  destruct Hcases
    as [(Hok & _ & Hmsg & _)|(Hraise & _ & _ & Hst & _)].
  - split; [|split].
    + intros _. split.
      * by rewrite Hmsg, Herr.
      * specialize (Hrest Hok). subst rest. by rewrite app_nil_r in Hcat.
    + intros Hno. by destruct Hno.
    + done.
  - split; [|split].
    + intros Hok. by rewrite Hraise in Hok.
    + intros _. split; [done|]. by rewrite Hst.
    + intros Hall. by destruct (Hans Hall).
Qed.

End JobMore.

(** ** Errors that are not embedding failures *)

Section EstimatorFailure.

Context {F : Type} `{PyFloat F}.
Variable env : Env (F := F).

(** X9. When the division of the processed count by the elapsed time
    fails (no time has passed since the start reading), an item whose
    embedding succeeded is counted as an error all the same.  Its point
    has been appended, and sent to the store if that filled the batch, and
    the processed count has advanced; only the estimate and the message
    are left as they were.  The one exception is a full batch that the
    store refuses: the estimator is then not reached, the error counted is
    that of the refused call, the batch keeps its points and the processed
    count stays. *)
Theorem estimator_failure_counts_error (n idx : nat) (image_file : Path.t)
    (pt : PointStruct) (t0 : F) (fr : Frame) :
  record_of env (idx, image_file) = Some pt ->
  start_time (indexing_status (world fr)) = Some t0 ->
  fdiv (of_Z (Z.of_nat (idx + 1)))
       (fsub (clock env (clock_reads (world fr))) t0) = None ->
  let r := loop_body env n (idx, image_file) fr in
  let fr' := snd r in
  fst r = Ok tt /\
  errors fr' = S (errors fr) /\
  estimated_time (indexing_status (world fr'))
    = estimated_time (indexing_status (world fr)) /\
  message (indexing_status (world fr'))
    = message (indexing_status (world fr)) /\
  (if (100 <=? length (points fr ++ [pt]))%nat
   then
     if upsert_raises env (upsert_calls (world fr))
     then progress (indexing_status (world fr'))
            = progress (indexing_status (world fr)) /\
          points fr' = points fr ++ [pt] /\
          upsert_log (world fr') = upsert_log (world fr)
     else progress (indexing_status (world fr')) = idx + 1 /\
          points fr' = [] /\
          upsert_log (world fr')
            = upsert_log (world fr) ++ [points fr ++ [pt]]
   else progress (indexing_status (world fr')) = idx + 1 /\
        points fr' = points fr ++ [pt] /\
        upsert_log (world fr') = upsert_log (world fr)).
Proof.
  intros Hr Hs Hd. cbv zeta. rewrite loop_body_eq, Hr. cbn [fst snd].
  split; [done|].
  rewrite <- batch_size_eq.
  unfold after_record. cbv zeta.
  destruct (Nat.leb batch_size (length (points fr ++ [pt]))).
  - unfold upsert.
    destruct (upsert_raises env (upsert_calls (world fr))); [done|].
    unfold finish_record. simpl.
    match goal with
    | |- context [estimate_time_remaining env ?a ?b ?c ?d] =>
        pose proof (estimate_zero_elapsed env a b t0 d) as Hz;
        pose proof (estimate_world env a b c d) as (Hst & _ & Hl & _)
    end.
    simpl in Hz, Hst, Hl. rewrite Hs in *.
    specialize (Hz ltac:(lia) Hd).
    destruct (estimate_time_remaining env _ _ _ _) as [[eta|e] w3];
      simpl in *; [done|].
    rewrite Hst, Hl. done.
  - unfold finish_record. simpl.
    match goal with
    | |- context [estimate_time_remaining env ?a ?b ?c ?d] =>
        pose proof (estimate_zero_elapsed env a b t0 d) as Hz;
        pose proof (estimate_world env a b c d) as (Hst & _ & Hl & _)
    end.
    simpl in Hz, Hst, Hl. rewrite Hs in *.
    specialize (Hz ltac:(lia) Hd).
    destruct (estimate_time_remaining env _ _ _ _) as [[eta|e] w3];
      simpl in *; [done|].
    rewrite Hst, Hl. done.
Qed.

End EstimatorFailure.

(** ** The collection across runs *)

Section Collection.

Context {F : Type} `{PyFloat F}.
Variable env : Env (F := F).

Lemma dom_store_points (l : list (@PointStruct F))
    (c : gmap nat (@PointStruct F)) :
  dom (store_points l c) = dom c ∪ list_to_set (id <$> l).
Proof.
  revert c. induction l as [|p l IH]; intros c.
  - simpl. by rewrite (right_id_L ∅ (∪)).
  - change (store_points (p :: l) c)
      with (store_points l (<[id p := p]> c)).
    rewrite IH, dom_insert_L, fmap_cons, list_to_set_cons.
    rewrite (comm_L (∪) {[id p]} (dom c)). by rewrite (assoc_L (∪)).
Qed.

Lemma size_store_points_empty (l : list (@PointStruct F)) :
  NoDup (id <$> l) -> size (store_points l ∅) = length l.
Proof.
  intros Hnd.
  rewrite <- size_dom, dom_store_points, dom_empty_L, (left_id_L ∅ (∪)).
  rewrite size_list_to_set by done. apply length_fmap.
Qed.

Lemma store_points_twice (l : list (@PointStruct F))
    (c : gmap nat (@PointStruct F)) :
  NoDup (id <$> l) -> store_points l (store_points l c) = store_points l c.
Proof.
  intros Hnd. apply map_eq. intros i.
  destruct (decide (i ∈ id <$> l)) as [Hi|Hi].
  - apply list_elem_of_fmap in Hi as (p & -> & Hp).
    by rewrite !store_points_present.
  - by rewrite !store_points_absent.
Qed.

(** X11. A run removes nothing from the collection, whether it ends
    normally or not.  Let [stored] be the points the store has taken
    during the run.  The ids held after the run are the ids held before
    together with the ids of [stored]; every id outside [stored] holds
    what it held before; the ids of [stored] are positions of files, all
    below the number of files; and [stored] is an initial part of the
    points of the files that yield one, all of them when the run ends
    normally. *)
Theorem run_keeps_points (image_folder : string) (w : World) :
  let run := index_images_background env image_folder w in
  let w' := world (snd run) in
  let stored := concat (drop (length (upsert_log w)) (upsert_log w')) in
  let all := records env (enumerate (scan env image_folder)) in
  dom (collection w') = dom (collection w) ∪ list_to_set (id <$> stored) /\
  (forall i, i ∉ id <$> stored ->
     collection w' !! i = collection w !! i) /\
  Forall (fun i => i < length (scan env image_folder)) (id <$> stored) /\
  (exists rest, stored ++ rest = all) /\
  (fst run = Ok tt -> stored = all).
Proof.
  cbv zeta.
  destruct (run_store env image_folder w)
    as (bs & rest & Hl & Hc & Hcat & Hok & _).
  rewrite Hl, drop_app_length, Hc.
  destruct (stored_ids_NoDup env _ _ _ Hcat) as (_ & Hsub & _).
  split; [apply dom_store_points|]. split.
  { intros i Hi. by apply store_points_absent. }
  split.
  { apply Forall_forall. intros i Hi.
    pose proof (elem_of_sublist _ _ _ Hi Hsub) as Hs.
    apply elem_of_seq in Hs. lia. }
  split; [by exists rest|].
  intros Hrun. rewrite (Hok Hrun), app_nil_r in Hcat. done.
Qed.

(** X12. After a run into an empty collection the statistics report as
    many images as points the store has taken during the run, at most the
    number of files that yield a point and so at most the number of files
    found.  When the run ends normally that is every file that yields a
    point, and the statistics report that no indexing is under way; when
    the run ends with an exception the statistics keep reporting what the
    running flag was before the run. *)
Theorem stats_after_first_run (image_folder : string) (w : World)
    (cuda : bool) :
  collection w = ∅ ->
  let run := index_images_background env image_folder w in
  let w' := world (snd run) in
  let stored := concat (drop (length (upsert_log w)) (upsert_log w')) in
  let all := records env (enumerate (scan env image_folder)) in
  total_images (get_stats cuda true w') = length stored /\
  length stored <= length all /\
  length all <= total (indexing_status w') /\
  (fst run = Ok tt ->
   get_stats cuda true w' =
     {| total_images := length all;
        stats_device := if cuda then "cuda" else "cpu";
        stats_is_indexing := false |}) /\
  (fst run <> Ok tt ->
   stats_is_indexing (get_stats cuda true w')
   = is_indexing (indexing_status w)).
Proof.
  intros Hempty. cbv zeta.
  destruct (run_store env image_folder w)
    as (bs & rest & Hl & Hc & Hcat & Hok & _).
  pose proof (run_status env image_folder w) as (Ht & _ & _ & Hi & Hi').
  cbv zeta in Ht, Hi, Hi'.
  destruct (stored_ids_NoDup env _ _ _ Hcat) as (Hnd & _ & _).
  rewrite Hl, drop_app_length.
  assert (size (collection
            (world (snd (index_images_background env image_folder w))))
          = length (concat bs)) as Hsize.
  { rewrite Hc, Hempty. by apply size_store_points_empty. }
  unfold get_stats, points_count. cbn [total_images stats_is_indexing].
  rewrite Hsize, Ht.
  split; [done|]. split.
  { rewrite <- Hcat, length_app. lia. }
  split.
  { etrans; [apply records_length|].
    unfold enumerate. rewrite length_zip_with_r_eq; [done|].
    by rewrite length_seq. }
  split.
  - intros Hrun. rewrite (Hi Hrun).
    rewrite (Hok Hrun), app_nil_r in Hcat. by rewrite Hcat.
  - intros Hrun. exact (Hi' Hrun).
Qed.

(** X13. One job at a time.  Once a start request has been accepted,
    every further start request is refused with status 400 and changes
    nothing: right after the acceptance, and between any two iterations
    of the loop of the run.  When the run ends normally, a start request
    for an existing folder is accepted again.  When the run ends with an
    exception, the running flag is never cleared and every later start
    request is refused. *)
Theorem one_job_at_a_time (req : StartRequest) (w : World) :
  is_indexing (indexing_status w) = false ->
  path_exists env (default "./scraped_images" (folder req)) = true ->
  let image_folder := default "./scraped_images" (folder req) in
  let files := scan env image_folder in
  let n := length files in
  let w1 := (start_indexing env req w).1.2 in
  let run := index_images_background env image_folder w1 in
  let w2 := world (snd run) in
  let refused (wk : World) :=
    forall req',
      start_indexing env req' wk =
      ({| code := 400; body := ErrorBody "Indexing already in progress" |},
       wk, None) in
  refused w1 /\
  (forall k,
     refused (world (snd (for_each (loop_body env n)
                            (take k (enumerate files))
                            (begin_job env n w1))))) /\
  (fst run = Ok tt ->
   forall req',
     path_exists env (default "./scraped_images" (folder req')) = true ->
     (start_indexing env req' w2).2
     = Some (default "./scraped_images" (folder req'))) /\
  (fst run <> Ok tt -> refused w2).
Proof.
  intros Hidle Hex. cbv zeta.
  assert ((start_indexing env req w).1.2 = set_status reset_status w) as ->.
  { unfold start_indexing. by rewrite Hidle, Hex. }
  set (image_folder := default "./scraped_images" (folder req)).
  pose proof (run_status env image_folder (set_status reset_status w))
    as (_ & _ & _ & Hi & Hi').
  cbv zeta in Hi, Hi'.
  split; [|split; [|split]].
  - intros req'. reflexivity.
  - intros k req'. rewrite for_each_loop_body. cbn [snd].
    pose proof (loop_status env (length (scan env image_folder))
      (take k (enumerate (scan env image_folder)))
      (begin_job env (length (scan env image_folder))
         (set_status reset_status w))) as (_ & _ & Hrun).
    cbv zeta in Hrun. unfold start_indexing. by rewrite Hrun.
  - intros Hok req' Hex'. unfold start_indexing.
    by rewrite (Hi Hok), Hex'.
  - intros Hno req'. unfold start_indexing. by rewrite (Hi' Hno).
Qed.

End Collection.

(** ** Indexing a folder again *)

Section Reindex.

Context {F : Type} `{PyFloat F}.
Variables env1 env2 : Env (F := F).

(** X10. Indexing a folder a second time.  [env1] is what the first run
    meets and [env2] what the second meets.  If both runs end normally
    and the second lists the same files in the same order and obtains the
    same points for them, the second run finds the same number of files
    and leaves the collection exactly as the first left it.  The listing
    order is a premise: nothing in the code fixes it. *)
Theorem reindex_same_collection (image_folder : string) (w : World) :
  let run1 := index_images_background env1 image_folder w in
  let w1 := world (snd run1) in
  let run2 := index_images_background env2 image_folder w1 in
  let w2 := world (snd run2) in
  fst run1 = Ok tt ->
  fst run2 = Ok tt ->
  scan env2 image_folder = scan env1 image_folder ->
  records env2 (enumerate (scan env2 image_folder))
    = records env1 (enumerate (scan env1 image_folder)) ->
  collection w2 = collection w1 /\
  total (indexing_status w2) = total (indexing_status w1).
Proof.
  cbv zeta. intros Hok1 Hok2 Hscan Hrec.
  destruct (run_store env1 image_folder w)
    as (b1 & r1 & _ & Hc1 & Hcat1 & Hr1 & _).
  destruct (run_store env2 image_folder
    (world (snd (index_images_background env1 image_folder w))))
    as (b2 & r2 & _ & Hc2 & Hcat2 & Hr2 & _).
  rewrite (Hr1 Hok1), app_nil_r in Hcat1.
  rewrite (Hr2 Hok2), app_nil_r in Hcat2.
  split.
  - rewrite Hc2, Hcat2, Hrec, Hc1, Hcat1. apply store_points_twice.
    apply records_ids_NoDup.
  - pose proof (run_status env1 image_folder w) as (-> & _).
    pose proof (run_status env2 image_folder
      (world (snd (index_images_background env1 image_folder w))))
      as (-> & _).
    by rewrite Hscan.
Qed.

End Reindex.

(** ** Searching what was indexed *)

Section SearchIndexed.

Context {F : Type} `{PyFloat F}.
Variable env : Env (F := F).

Lemma record_of_has_keys (item : nat * Path.t) (p : PointStruct) :
  record_of env item = Some p -> has_keys (payload p).
Proof.
  unfold record_of. destruct (Path.with_suffix _ _); [|done].
  destruct (embed_image env _); [|done]. intros [= <-].
  split; eexists; simpl.
  - apply lookup_insert_eq.
  - rewrite lookup_insert_ne by done. apply lookup_insert_eq.
Qed.

Lemma run_has_keys (image_folder : string) (w : World) :
  map_Forall (fun _ p => has_keys (payload p)) (collection w) ->
  map_Forall (fun _ p => has_keys (payload p))
    (collection (world (snd (index_images_background env image_folder w)))).
Proof.
  intros Hw i p.
  destruct (run_store env image_folder w)
    as (bs & rest & _ & -> & Hcat & _).
  destruct (stored_ids_NoDup env _ _ _ Hcat) as (Hnd & _ & Hin).
  destruct (decide (i ∈ id <$> concat bs)) as [Hi|Hi].
  - apply list_elem_of_fmap in Hi as (q & -> & Hq).
    rewrite store_points_present by done.
    intros [= <-]. apply Hin, elem_of_records in Hq as (item & _ & Hitem).
    by eapply record_of_has_keys.
  - rewrite store_points_absent by done. apply Hw.
Qed.

(** X14. If every point in the collection carries a file name and a path
    before a run, a search made after the run whose hits are payloads of
    points of the collection, and for which the encoder and the store
    answer, is answered with status 200 and as many results as hits: the
    points written by the indexing job never make a search fail. *)
Theorem search_after_indexing (image_folder : string) (w : World)
    (req : SearchRequest) (v : list F) (rs : list ScoredPoint) :
  map_Forall (fun _ p => has_keys (payload p)) (collection w) ->
  let w' := world (snd (index_images_background env image_folder w)) in
  default "" (query req) <> "" ->
  clip_text env (default "" (query req)) = Some v ->
  knn env (collection w') v (default 12%Z (top_k req)) = Some rs ->
  Forall (fun r => exists i p,
            collection w' !! i = Some p /\ sp_payload r = payload p) rs ->
  exists hs,
    fst (search env req w') =
    {| code := 200;
       body := ResultsBody (default "" (query req)) hs (length rs) |} /\
    length hs = length rs.
Proof.
  intros Hw w' Hq Hv Hrs Hfrom.
  assert (Forall (fun r => has_keys (sp_payload r)) rs) as Hk.
  { eapply Forall_impl; [exact Hfrom|].
    intros r (i & p & Hp & ->).
    exact (run_has_keys image_folder w Hw i p Hp). }
  unfold search. rewrite decide_False by done.
  unfold bind at 1, log_call, modify. unfold bind at 1.
  rewrite Hv. simpl. unfold bind at 1. simpl. unfold bind at 1.
  fold w'. rewrite Hrs. simpl.
  destruct (format_results_shaped rs
    [EmbedTextCall (default "" (query req));
     StoreSearchCall v (default 12%Z (top_k req))] Hk) as (hs & Hhs & Hsh).
  exists hs. unfold bind. rewrite Hhs. simpl.
  apply Forall2_length in Hsh. by rewrite Hsh.
Qed.

End SearchIndexed.

(** ** Concrete runs, continued *)

Lemma search_answers_witness :
  exists hs,
    search Demo2.env {| query := Some "red car"; top_k := Some 1%Z |}
      Demo.idle =
    ({| code := 200; body := ResultsBody "red car" hs 1 |},
     [EmbedTextCall "red car"; StoreSearchCall [1%Q] 1%Z]) /\
    Forall2 shaped [Demo2.hit_ok] hs.
Proof.
  apply (search_answers Demo2.env
           {| query := Some "red car"; top_k := Some 1%Z |}
           Demo.idle [1%Q] [Demo2.hit_ok]).
  - discriminate.
  - reflexivity.
  - reflexivity.
  - repeat constructor; eexists; reflexivity.
Defined.

Lemma search_fails_witness :
  search Demo2.env {| query := Some "boom"; top_k := None |} Demo.idle =
    ({| code := 500; body := ExceptionBody ExternalError |},
     [EmbedTextCall "boom"]) /\
  search Demo2.env {| query := Some "red car"; top_k := None |} Demo.idle =
    ({| code := 500; body := ExceptionBody KeyError |},
     [EmbedTextCall "red car"; StoreSearchCall [1%Q] 12%Z]).
Proof.
  split.
  - apply (proj1 (search_fails Demo2.env
             {| query := Some "boom"; top_k := None |} Demo.idle
             ltac:(discriminate))).
    reflexivity.
  - apply (proj2 (proj2 (search_fails Demo2.env
             {| query := Some "red car"; top_k := None |} Demo.idle
             ltac:(discriminate)))
             [1%Q] [Demo2.hit_ok; Demo2.hit_bad]).
    + reflexivity.
    + reflexivity.
    + apply Exists_cons_tl, Exists_cons_hd.
      intros [_ [x Hx]]. vm_compute in Hx. discriminate.
Defined.

Lemma status_between_items_witness :
  progress (indexing_status (world (snd
    (for_each (loop_body Demo.env 3)
       (take 2 (enumerate (scan Demo.env "imgs")))
       (begin_job Demo.env 3 (Demo.started "imgs")))))) <= 2.
Proof.
  apply (status_between_items Demo.env 3 2 (scan Demo.env "imgs")
           (begin_job Demo.env 3 (Demo.started "imgs"))
           eq_refl eq_refl eq_refl).
Defined.

Lemma points_between_items_witness :
  answers_from Demo.env
    (upsert_calls (world (begin_job Demo.env 3 (Demo.started "imgs")))) /\
  exists batches,
    upsert_log (world (snd
      (for_each (loop_body Demo.env 3)
         (take 2 (enumerate (scan Demo.env "imgs")))
         (begin_job Demo.env 3 (Demo.started "imgs")))))
    = upsert_log (world (begin_job Demo.env 3 (Demo.started "imgs")))
      ++ batches /\
    concat batches ++ points (snd
      (for_each (loop_body Demo.env 3)
         (take 2 (enumerate (scan Demo.env "imgs")))
         (begin_job Demo.env 3 (Demo.started "imgs"))))
    = points (begin_job Demo.env 3 (Demo.started "imgs")) ++
      records Demo.env (take 2 (enumerate (scan Demo.env "imgs"))) /\
    Forall (fun b => length b = 100) batches /\
    length (points (snd
      (for_each (loop_body Demo.env 3)
         (take 2 (enumerate (scan Demo.env "imgs")))
         (begin_job Demo.env 3 (Demo.started "imgs"))))) < 100.
Proof.
  assert (answers_from Demo.env
    (upsert_calls (world (begin_job Demo.env 3 (Demo.started "imgs")))))
    as Hans by (intros j _; reflexivity).
  split; [exact Hans|].
  destruct (points_between_items Demo.env 3
              (take 2 (enumerate (scan Demo.env "imgs")))
              (begin_job Demo.env 3 (Demo.started "imgs")))
    as (bs & Hl & _ & Hp & _ & Hsz).
  assert (length (points (begin_job Demo.env 3 (Demo.started "imgs"))) < 100)
    as Hlen by (simpl; lia).
  destruct (Hsz Hans Hlen) as [Hf Hw].
  exists bs. split; [exact Hl|]. split; [exact Hp|].
  split; [exact Hf|exact Hw].
Defined.

Lemma final_progress_is_last_stored_witness :
  answers_from Demo.env (upsert_calls (Demo.started "imgs")) /\
  progress (indexing_status
    (world (snd (index_images_background Demo.env "imgs"
                   (Demo.started "imgs"))))) = 3.
Proof.
  assert (answers_from Demo.env (upsert_calls (Demo.started "imgs")))
    as Hans by (intros j _; reflexivity).
  split; [exact Hans|].
  exact (proj2 (final_progress_is_last_stored Demo.env "imgs"
                  (Demo.started "imgs") Hans)).
Defined.

Lemma completion_message_witness :
  message (indexing_status
    (world (snd (index_images_background Demo.env "imgs"
                   (Demo.started "imgs")))))
    = "✅ Completed! Indexed 2 images (1 errors)" /\
  fst (index_images_background Demo2.failing "other" (Demo.started "other"))
    = Raise ExternalError.
Proof.
  split.
  - assert (fst (index_images_background Demo.env "imgs"
                   (Demo.started "imgs")) = Ok tt) as Hok by reflexivity.
    destruct (completion_message Demo.env "imgs" (Demo.started "imgs"))
      as (_ & _ & Hdone & _).
    exact (proj1 (Hdone Hok)).
  - destruct (completion_message Demo2.failing "other"
                (Demo.started "other")) as (_ & _ & _ & Hfail & _).
    apply Hfail. intros Hok. vm_compute in Hok. discriminate.
Defined.

Lemma estimator_failure_counts_error_witness :
  errors (snd (loop_body Demo.frozen 1 (0, ["other"; "z.png"])
                 Demo2.frozen_frame)) = 1 /\
  length (points (snd (loop_body Demo.frozen 1 (0, ["other"; "z.png"])
                         Demo2.frozen_frame))) = 1.
Proof.
  pose proof (estimator_failure_counts_error Demo.frozen 1 0
    ["other"; "z.png"]
    (make_point Demo.frozen 0 ["other"; "z.png"] [1%Q]
       (of_string "No description"))
    0%Q Demo2.frozen_frame eq_refl eq_refl eq_refl)
    as (_ & He & _ & _ & Hp).
  split; [exact He|].
  exact (f_equal length (proj1 (proj2 Hp))).
Defined.

Lemma reindex_same_collection_witness :
  collection
    (world (snd (index_images_background Demo.env "imgs"
       (world (snd (index_images_background Demo.env "imgs"
                      (Demo.started "imgs")))))))
  = collection
      (world (snd (index_images_background Demo.env "imgs"
                     (Demo.started "imgs")))).
Proof.
  assert (fst (index_images_background Demo.env "imgs"
                 (Demo.started "imgs")) = Ok tt) as Hok1 by reflexivity.
  assert (fst (index_images_background Demo.env "imgs"
            (world (snd (index_images_background Demo.env "imgs"
                           (Demo.started "imgs"))))) = Ok tt)
    as Hok2 by reflexivity.
  exact (proj1 (reindex_same_collection Demo.env Demo.env "imgs"
                  (Demo.started "imgs") Hok1 Hok2 eq_refl eq_refl)).
Defined.

Lemma run_keeps_points_witness :
  fst (index_images_background Demo.env "imgs" (Demo.started "imgs"))
    = Ok tt /\
  concat (drop (length (upsert_log (Demo.started "imgs")))
            (upsert_log
               (world (snd (index_images_background Demo.env "imgs"
                              (Demo.started "imgs"))))))
  = records Demo.env (enumerate (scan Demo.env "imgs")).
Proof.
  assert (fst (index_images_background Demo.env "imgs"
                 (Demo.started "imgs")) = Ok tt) as Hok by reflexivity.
  split; [exact Hok|].
  destruct (run_keeps_points Demo.env "imgs" (Demo.started "imgs"))
    as (_ & _ & _ & _ & Hall).
  exact (Hall Hok).
Defined.

Lemma stats_after_first_run_witness :
  get_stats false true
    (world (snd (index_images_background Demo.env "imgs"
                   (Demo.started "imgs"))))
  = {| total_images := 2; stats_device := "cpu";
       stats_is_indexing := false |} /\
  stats_is_indexing (get_stats false true
    (world (snd (index_images_background Demo2.failing "other"
                   (Demo.started "other"))))) = true.
Proof.
  split.
  - assert (fst (index_images_background Demo.env "imgs"
                   (Demo.started "imgs")) = Ok tt) as Hok by reflexivity.
    destruct (stats_after_first_run Demo.env "imgs" (Demo.started "imgs")
                false eq_refl) as (_ & _ & _ & Hdone & _).
    exact (Hdone Hok).
  - destruct (stats_after_first_run Demo2.failing "other"
                (Demo.started "other") false eq_refl)
      as (_ & _ & _ & _ & Hfail).
    apply Hfail. intros Hok. vm_compute in Hok. discriminate.
Defined.

Lemma one_job_at_a_time_witness :
  start_indexing Demo.env {| folder := Some "other" |} (Demo.started "imgs")
    = ({| code := 400; body := ErrorBody "Indexing already in progress" |},
       Demo.started "imgs", None) /\
  code (start_indexing Demo.env {| folder := Some "other" |}
          (world (snd (for_each (loop_body Demo.env 3)
                         (take 2 (enumerate (scan Demo.env "imgs")))
                         (begin_job Demo.env 3 (Demo.started "imgs")))))).1.1
    = 400 /\
  (start_indexing Demo.env {| folder := Some "other" |}
     (world (snd (index_images_background Demo.env "imgs"
                    (Demo.started "imgs"))))).2
    = Some "other" /\
  code (start_indexing Demo2.failing {| folder := Some "imgs" |}
          (world (snd (index_images_background Demo2.failing "other"
                         (Demo.started "other"))))).1.1
    = 400.
Proof.
  destruct (one_job_at_a_time Demo.env {| folder := Some "imgs" |}
              Demo.idle eq_refl eq_refl) as (Hbusy & Hloop & Hfree & _).
  destruct (one_job_at_a_time Demo2.failing {| folder := Some "other" |}
              Demo.idle eq_refl eq_refl) as (_ & _ & _ & Hstuck).
  split; [|split; [|split]].
  - apply (Hbusy {| folder := Some "other" |}).
  - exact (f_equal (fun r => code r.1.1)
             (Hloop 2 {| folder := Some "other" |})).
  - apply (Hfree eq_refl {| folder := Some "other" |}). reflexivity.
  - refine (f_equal (fun r => code r.1.1)
              (Hstuck _ {| folder := Some "imgs" |})).
    intros Hok. vm_compute in Hok. discriminate.
Defined.

Lemma search_after_indexing_witness :
  exists hs,
    fst (search Demo2.echo {| query := Some "red car"; top_k := None |}
           (world (snd (index_images_background Demo2.echo "imgs"
                          (Demo.started "imgs")))))
    = {| code := 200; body := ResultsBody "red car" hs 2 |} /\
    length hs = 2.
Proof.
  refine (search_after_indexing Demo2.echo "imgs" (Demo.started "imgs")
            {| query := Some "red car"; top_k := None |} [1%Q]
            _ _ _ eq_refl eq_refl _).
  - intros i p Hp. vm_compute in Hp. discriminate.
  - discriminate.
  - repeat constructor.
    + exists 0. eexists. split; reflexivity.
    + exists 2. eexists. split; reflexivity.
Defined.
